(** * combined_viewer.py: link scoring, ranking, extraction and chat dispatch

    A shallow embedding of the decision logic of [combined_viewer.py]
    (the scorer [score_link], the ranker [rank_links], the DOM callback
    [_on_dom], the context composer [_compose_context] and the chat
    handler [_send_to_llm]) with the properties the specification states
    about them.

    Conventions of the embedding:
    - a Python [str] is a [string] whose characters are the code points
      0..255 (Latin-1); [str.lower], [str.strip] and [in] are written out
      on that alphabet;
    - a Python [float] is a binary64 [float] of the kernel, so that
      [0.1 + 0.1 + 0.1] is [0.30000000000000004] here as it is there;
    - widgets are the fields of an explicit window state, and the
      collaborators that can fail (the file system, the chat endpoint)
      are results handed to the step functions. *)

From Stdlib Require Import ZArith List String Ascii Bool Lia Arith.
From Stdlib Require Import Sorting.Permutation Sorting.Sorted.
From Stdlib Require Import Floats.PrimFloat Floats.FloatOps.
Import ListNotations.

#[local] Set Warnings "-inexact-float,-register-all".
#[local] Open Scope string_scope.
#[local] Open Scope nat_scope.

(* ================================================================= *)
(** ** Python strings *)

Module PyStr.

(** Code point of a character. *)
Definition ord (c : ascii) : nat := nat_of_ascii c.

(** [str.lower] on one Latin-1 character: [A-Z], [U+00C0-U+00D6] and
    [U+00D8-U+00DE] move up by 32, everything else is unchanged. *)
Definition lower_char (c : ascii) : ascii :=
  let n := ord c in
  if ((65 <=? n) && (n <=? 90)) || ((192 <=? n) && (n <=? 214))
     || ((216 <=? n) && (n <=? 222))
  then ascii_of_nat (n + 32) else c.

(** [s.lower()] *)
Fixpoint lower (s : string) : string :=
  match s with
  | EmptyString => EmptyString
  | String c s' => String (lower_char c) (lower s')
  end.

(** [sub in s]: [sub] occurs in [s] at some offset. *)
Fixpoint contains (sub s : string) : bool :=
  prefix sub s ||
  match s with
  | EmptyString => false
  | String _ s' => contains sub s'
  end.

(** [s.count(c)] for a one-character needle. *)
Fixpoint count_char (c : ascii) (s : string) : nat :=
  match s with
  | EmptyString => 0
  | String d s' => (if Ascii.eqb c d then 1 else 0) + count_char c s'
  end.

(** [c.isspace()] on Latin-1: TAB..CR, FS..US, space, NEL and NBSP. *)
Definition isspace (c : ascii) : bool :=
  let n := ord c in
  ((9 <=? n) && (n <=? 13)) || ((28 <=? n) && (n <=? 32))
  || (n =? 133) || (n =? 160).

(** [s.lstrip()] *)
Fixpoint lstrip (s : string) : string :=
  match s with
  | EmptyString => EmptyString
  | String c s' => if isspace c then lstrip s' else s
  end.

(** [s.rstrip()] *)
Fixpoint rstrip (s : string) : string :=
  match s with
  | EmptyString => EmptyString
  | String c s' =>
      match rstrip s' with
      | EmptyString => if isspace c then EmptyString else String c EmptyString
      | r => String c r
      end
  end.

(** [s.strip()] *)
Definition strip (s : string) : string := rstrip (lstrip s).

(** Truth value of a string: [not s] holds for the empty string only. *)
Definition truthy (s : string) : bool :=
  match s with EmptyString => false | String _ _ => true end.

(** [x or ''] for [x] a string or [None]. *)
Definition or_empty (x : option string) : string :=
  match x with Some s => s | None => EmptyString end.

(** [sep.join(parts)] *)
Fixpoint join (sep : string) (parts : list string) : string :=
  match parts with
  | [] => EmptyString
  | [p] => p
  | p :: rest => p ++ sep ++ join sep rest
  end.

(** Every character is whitespace. *)
Fixpoint all_space (s : string) : bool :=
  match s with
  | EmptyString => true
  | String c s' => isspace c && all_space s'
  end.

End PyStr.

(* ================================================================= *)
(** ** Link scoring *)

Module Scoring.
Import PyStr.

Definition WHITELIST_DOMAINS : list string :=
  ["planhub.com"; "buildingconnected.com"; "constructconnect.com";
   "isqft.com"; "procore.com"].
Definition INTENT_WORDS : list string :=
  ["view project"; "submit"; "bid"; "open invite"; "project"; "plans";
   "portal"; "itb"].
Definition HREF_HINTS : list string :=
  ["project"; "bid"; "invite"; "itb"; "plan"; "rfi"].
Definition NEGATIVE_HINTS : list string :=
  ["unsubscribe"; "preferences"; "kb."; "knowledge"; "support"; "terms";
   "privacy"].

(** [l.append(x)] *)
Definition append {A : Type} (l : list A) (x : A) : list A := (l ++ [x])%list.

(** A [for x in xs: body] loop over a local variable. *)
Definition for_each {A S : Type} (xs : list A) (body : S -> A -> S) (init : S) : S :=
  fold_left body xs init.

(** [score_link(href, text)], statement by statement. *)
Definition score_link (href text : option string) : float :=
  let href_l := lower (or_empty href) in
  let text_l := lower (or_empty text) in
  let score := 0.0%float in
  if negb (truthy href_l) then (-999.0)%float else
  let score := for_each WHITELIST_DOMAINS
    (fun score d => if contains d href_l then (score + 0.6)%float else score) score in
  let score := for_each INTENT_WORDS
    (fun score w => if contains w text_l then (score + 0.3)%float else score) score in
  let score := if 4 <=? count_char "/" href_l then (score + 0.1)%float else score in
  let score := for_each HREF_HINTS
    (fun score q => if contains q href_l then (score + 0.1)%float else score) score in
  let score := for_each NEGATIVE_HINTS
    (fun score bad => if contains bad href_l then (score - 1.0)%float else score) score in
  score.

(** *** The heuristic as the specification words it *)

(** Number of the configured substrings that occur in [s]. *)
Definition hits (subs : list string) (s : string) : nat :=
  List.length (filter (fun p => contains p s) subs).

(** [x] after [n] additions of the weight [w]. *)
Definition add_times (n : nat) (w x : float) : float :=
  Nat.iter n (fun a => (a + w)%float) x.

(** [x] after [n] subtractions of the weight [w]. *)
Definition sub_times (n : nat) (w x : float) : float :=
  Nat.iter n (fun a => (a - w)%float) x.

(** Base 0; the sentinel for an empty href; otherwise 0.6 per trusted
    domain in the href, 0.3 per intent phrase in the text, 0.1 once for
    four or more separators, 0.1 per structural hint and minus 1.0 per
    negative hint in the href, all on the lower-cased inputs. *)
Definition spec_score (href text : string) : float :=
  if negb (truthy href) then (-999.0)%float else
  let h := lower href in
  let t := lower text in
  sub_times (hits NEGATIVE_HINTS h) 1.0
    (add_times (hits HREF_HINTS h) 0.1
      (add_times (if 4 <=? count_char "/" h then 1 else 0) 0.1
        (add_times (hits INTENT_WORDS t) 0.3
          (add_times (hits WHITELIST_DOMAINS h) 0.6 0.0)))).

(** *** The values a score can take *)

(** The score reached with [a] trusted domains, [b] intent phrases, [n]
    additions of 0.1 and [e] negative hints. *)
Definition tally (a b n e : nat) : float :=
  sub_times e 1.0 (add_times n 0.1 (add_times b 0.3 (add_times a 0.6 0.0))).

(** Every tally within the lengths of the four lists (the separator rule
    and the structural hints share the weight 0.1, hence up to 7 of it). *)
Definition tallies : list float :=
  flat_map (fun a =>
  flat_map (fun b =>
  flat_map (fun n =>
  map (fun e => tally a b n e) (seq 0 8)) (seq 0 8)) (seq 0 9)) (seq 0 6).

(** Insertion into an increasing list without repetition. *)
Fixpoint insert_new (x : float) (l : list float) : list float :=
  match l with
  | [] => [x]
  | y :: l' =>
      if (x =? y)%float then l
      else if (x <? y)%float then x :: l
      else y :: insert_new x l'
  end.

(** The attainable scores in increasing order: the sentinel and the
    distinct tallies. *)
Definition score_values : list float :=
  Eval vm_compute in fold_right insert_new [] ((-999.0)%float :: tallies).

(** Position of a score among the attainable ones: how many of them lie
    strictly below it. *)
Definition score_pos (x : float) : Z :=
  fold_left (fun k d => if (d <? x)%float then Z.succ k else k) score_values 0%Z.

(** The attainable scores paired with their positions. *)
Definition score_chart : list (float * Z) :=
  Eval vm_compute in map (fun x => (x, score_pos x)) score_values.

(** Position of each tally, in the order of [tallies]. *)
Definition tally_pos : list nat :=
  Eval vm_compute in map (fun x => Z.to_nat (score_pos x)) tallies.

(** The three float comparisons agree with the positions. *)
Definition agree (p q : float * Z) : bool :=
  Bool.eqb (fst p <? fst q)%float (snd p <? snd q)%Z &&
  Bool.eqb (fst p =? fst q)%float (snd p =? snd q)%Z &&
  Bool.eqb (fst p <=? fst q)%float (snd p <=? snd q)%Z.

Definition all_pairs {A : Type} (f : A -> A -> bool) (l : list A) : bool :=
  forallb (fun p => forallb (f p) l) l.

(** [x] is one of the attainable scores. *)
Definition attainable (x : float) : Prop := In x score_values.

End Scoring.

(* ================================================================= *)
(** ** Ranking *)

Module Ranking.
Import PyStr Scoring.

(** One observed anchor, the dict with the keys [text] and [href]. *)
Record link := { l_text : string; l_href : string }.

(** One entry of [ranked], the dict with the keys [text], [href], [score]. *)
Record scored := { r_text : string; r_href : string; r_score : float }.

Section Sort.
Context {A : Type} (key : A -> float).

(** [x] goes in front of the first entry whose key it is not below. *)
Fixpoint insert_desc (x : A) (l : list A) : list A :=
  match l with
  | [] => [x]
  | y :: l' =>
      if (key x <? key y)%float then y :: insert_desc x l' else x :: l
  end.

(** [l.sort(key=key, reverse=True)]: decreasing keys, and entries whose
    keys do not differ stay in the order they had. *)
Fixpoint sort_desc (l : list A) : list A :=
  match l with
  | [] => []
  | x :: l' => insert_desc x (sort_desc l')
  end.

End Sort.

(** [rank_links(links)] *)
Definition rank_links (links : list link) : list scored :=
  let ranked := for_each links
    (fun ranked l =>
       let href := l_href l in
       let text := l_text l in
       append ranked {| r_text := text; r_href := href;
                        r_score := score_link (Some href) (Some text) |})
    [] in
  sort_desc r_score ranked.

(** The entry the loop of [rank_links] appends for one link. *)
Definition score_entry (l : link) : scored :=
  {| r_text := l_text l; r_href := l_href l;
     r_score := score_link (Some (l_href l)) (Some (l_text l)) |}.

(** [l[lo:hi]] for non-negative bounds. *)
Definition slice {A : Type} (lo hi : nat) (l : list A) : list A :=
  firstn (hi - lo) (skipn lo l).

(** [a] stands somewhere in front of [b] in [l]. *)
Definition precedes {A : Type} (a b : A) (l : list A) : Prop :=
  exists l1 l2 l3, l = (l1 ++ a :: l2 ++ b :: l3)%list.

(** Decreasing keys, every earlier entry against every later one. *)
Definition descending (l : list scored) : Prop :=
  StronglySorted (fun r1 r2 => (r_score r2 <=? r_score r1)%float = true) l.

(** The entries whose score does not differ from [s], in list order. *)
Definition tied (s : float) (l : list scored) : list scored :=
  filter (fun r => (r_score r =? s)%float) l.

End Ranking.

(* ================================================================= *)
(** ** json.dumps(obj, indent=2) on the values the viewer serialises *)

Module Json.
Import PyStr.

Inductive value :=
| Null
| Str (s : string)
| Arr (items : list value)
| Obj (members : list (string * value)).

Definition NL : string := String "010"%char EmptyString.
Definition QUOTE : string := String "034"%char EmptyString.
Definition BACKSLASH : string := String "092"%char EmptyString.

Definition hex_digit (n : nat) : string :=
  String (ascii_of_nat (if n <? 10 then 48 + n else 87 + n)) EmptyString.

(** The replacement [encode_basestring_ascii] makes for one character. *)
Definition escape_char (c : ascii) : string :=
  let n := ord c in
  if n =? 34 then BACKSLASH ++ QUOTE
  else if n =? 92 then BACKSLASH ++ BACKSLASH
  else if n =? 10 then BACKSLASH ++ "n"
  else if n =? 13 then BACKSLASH ++ "r"
  else if n =? 9 then BACKSLASH ++ "t"
  else if n =? 8 then BACKSLASH ++ "b"
  else if n =? 12 then BACKSLASH ++ "f"
  else if (32 <=? n) && (n <=? 126) then String c EmptyString
  else BACKSLASH ++ "u00" ++ hex_digit (n / 16) ++ hex_digit (n mod 16).

Fixpoint escape (s : string) : string :=
  match s with
  | EmptyString => EmptyString
  | String c s' => escape_char c ++ escape s'
  end.

Definition quoted (s : string) : string := QUOTE ++ escape s ++ QUOTE.

Fixpoint spaces (n : nat) : string :=
  match n with 0 => EmptyString | S k => String " "%char (spaces k) end.

(** Line break followed by the indentation of a nesting level. *)
Definition newline_indent (level : nat) : string := NL ++ spaces (2 * level).

Fixpoint dumps_at (level : nat) (v : value) : string :=
  match v with
  | Null => "null"
  | Str s => quoted s
  | Arr [] => "[]"
  | Arr items =>
      "[" ++ newline_indent (S level)
      ++ join ("," ++ newline_indent (S level)) (map (dumps_at (S level)) items)
      ++ newline_indent level ++ "]"
  | Obj [] => "{}"
  | Obj members =>
      "{" ++ newline_indent (S level)
      ++ join ("," ++ newline_indent (S level))
           (map (fun kv => quoted (fst kv) ++ ": " ++ dumps_at (S level) (snd kv))
                members)
      ++ newline_indent level ++ "}"
  end.

Definition dumps (v : value) : string := dumps_at 0 v.

End Json.

(* ================================================================= *)
(** ** The viewer window *)

Module Viewer.
Import PyStr Scoring Ranking Json.

(** The pointer dict built by the mailbox helper. *)
Record pointer := {
  account : string;
  mailbox : string;
  message_id : option string;
  subject : string;
  from : string
}.

(** What the page script hands to [_on_dom]. *)
Record dom_result := { js_text : string; js_links : list link }.

(** [self.email_data] *)
Record dom_part := { visible_text : string; dom_links : list link }.
Record links_part := { primary_portal : option string; aux : list link }.
Record extraction := {
  email_ptr : pointer;
  dom : dom_part;
  e_links : links_part   (* the key [links] of the record *)
}.

(** A raised exception: its class name, [str(e)] and the frame lines of
    its stack trace. *)
Record exn := { exn_type : string; exn_str : string; exn_frames : string }.

(** [traceback.format_exc()] while [e] is being handled. *)
Definition format_exc (e : exn) : string :=
  "Traceback (most recent call last):" ++ NL ++ exn_frames e
  ++ exn_type e ++ (if truthy (exn_str e) then ": " ++ exn_str e else EmptyString)
  ++ NL.

(** A line of the chat log.  [Pending] is the placeholder line appended
    after the user's message; its literal ends in a character beyond
    U+00FF, so it is kept as a constant of its own. *)
Inductive chat_line :=
| Text (s : string)
| Pending.

(** An item of the links list: [shown] is the label, [cut] tells that the
    href was cut to 100 characters and the ellipsis literal follows. *)
Record link_item := { shown : string; cut : bool; tooltip : string }.

Record window := {
  ptr : pointer;
  email_data : option extraction;
  details : list string;
  body_browser : string;
  links_list : list link_item;
  header_check : bool;
  body_check : bool;
  links_check : bool;
  chat_display : list chat_line;
  chat_input : string;
  dialogs : list (string * string);
  disk : option string
}.

Definition set_email_data (d : option extraction) (w : window) : window :=
  {| ptr := ptr w; email_data := d; details := details w;
     body_browser := body_browser w; links_list := links_list w;
     header_check := header_check w; body_check := body_check w;
     links_check := links_check w; chat_display := chat_display w;
     chat_input := chat_input w; dialogs := dialogs w; disk := disk w |}.

Definition set_details (l : list string) (w : window) : window :=
  {| ptr := ptr w; email_data := email_data w; details := l;
     body_browser := body_browser w; links_list := links_list w;
     header_check := header_check w; body_check := body_check w;
     links_check := links_check w; chat_display := chat_display w;
     chat_input := chat_input w; dialogs := dialogs w; disk := disk w |}.

Definition set_body_browser (s : string) (w : window) : window :=
  {| ptr := ptr w; email_data := email_data w; details := details w;
     body_browser := s; links_list := links_list w;
     header_check := header_check w; body_check := body_check w;
     links_check := links_check w; chat_display := chat_display w;
     chat_input := chat_input w; dialogs := dialogs w; disk := disk w |}.

Definition set_links_list (l : list link_item) (w : window) : window :=
  {| ptr := ptr w; email_data := email_data w; details := details w;
     body_browser := body_browser w; links_list := l;
     header_check := header_check w; body_check := body_check w;
     links_check := links_check w; chat_display := chat_display w;
     chat_input := chat_input w; dialogs := dialogs w; disk := disk w |}.

Definition set_chat_display (l : list chat_line) (w : window) : window :=
  {| ptr := ptr w; email_data := email_data w; details := details w;
     body_browser := body_browser w; links_list := links_list w;
     header_check := header_check w; body_check := body_check w;
     links_check := links_check w; chat_display := l;
     chat_input := chat_input w; dialogs := dialogs w; disk := disk w |}.

Definition set_chat_input (s : string) (w : window) : window :=
  {| ptr := ptr w; email_data := email_data w; details := details w;
     body_browser := body_browser w; links_list := links_list w;
     header_check := header_check w; body_check := body_check w;
     links_check := links_check w; chat_display := chat_display w;
     chat_input := s; dialogs := dialogs w; disk := disk w |}.

Definition set_dialogs (l : list (string * string)) (w : window) : window :=
  {| ptr := ptr w; email_data := email_data w; details := details w;
     body_browser := body_browser w; links_list := links_list w;
     header_check := header_check w; body_check := body_check w;
     links_check := links_check w; chat_display := chat_display w;
     chat_input := chat_input w; dialogs := l; disk := disk w |}.

Definition set_disk (f : option string) (w : window) : window :=
  {| ptr := ptr w; email_data := email_data w; details := details w;
     body_browser := body_browser w; links_list := links_list w;
     header_check := header_check w; body_check := body_check w;
     links_check := links_check w; chat_display := chat_display w;
     chat_input := chat_input w; dialogs := dialogs w; disk := f |}.

(** The user ticks or clears the three boxes. *)
Definition set_checks (h b l : bool) (w : window) : window :=
  {| ptr := ptr w; email_data := email_data w; details := details w;
     body_browser := body_browser w; links_list := links_list w;
     header_check := h; body_check := b; links_check := l;
     chat_display := chat_display w; chat_input := chat_input w;
     dialogs := dialogs w; disk := disk w |}.

(** [self.chat_display.append(line)] *)
Definition chat_append (line : chat_line) (w : window) : window :=
  set_chat_display (append (chat_display w) line) w.

(** [QMessageBox.critical(self, title, text)] *)
Definition critical (title text : string) (w : window) : window :=
  set_dialogs (append (dialogs w) (title, text)) w.

(** *** Serialising the record *)

Definition opt_json (x : option string) : value :=
  match x with Some s => Str s | None => Null end.

Definition pointer_json (p : pointer) : value :=
  Obj [("account", Str (account p)); ("mailbox", Str (mailbox p));
       ("message_id", opt_json (message_id p)); ("subject", Str (subject p));
       ("from", Str (from p))].

Definition link_json (l : link) : value :=
  Obj [("text", Str (l_text l)); ("href", Str (l_href l))].

Definition extraction_json (d : extraction) : value :=
  Obj [("email_ptr", pointer_json (email_ptr d));
       ("dom", Obj [("visible_text", Str (visible_text (dom d)));
                    ("links", Arr (map link_json (dom_links (dom d))))]);
       ("links", Obj [("primary_portal", opt_json (primary_portal (e_links d)));
                      ("aux", Arr (map link_json (aux (e_links d))))])].

(** *** The panels *)

(** The pointer's items with the keys already in the form
    [k.replace('_',' ').title()], and the values as an f-string prints
    them. *)
Definition pointer_labels (p : pointer) : list string :=
  ["Account: " ++ account p; "Mailbox: " ++ mailbox p;
   "Message Id: " ++ match message_id p with Some s => s | None => "None" end;
   "Subject: " ++ subject p; "From: " ++ from p].

(** [_display_details(ptr, primary)] *)
Definition _display_details (p : pointer) (primary : option string)
    (w : window) : window :=
  let labels := pointer_labels p in
  let labels :=
    if truthy (or_empty primary)
    then append labels ("Primary Portal: " ++ or_empty primary)
    else labels in
  set_details labels w.

(** [_display_body(text)] *)
Definition _display_body (text : string) (w : window) : window :=
  set_body_browser text w.

(** [_display_links(links)] *)
Definition _display_links (ls : list link) (w : window) : window :=
  let w := set_links_list [] w in
  for_each ls
    (fun w l =>
       let text := l_text l in
       let href := l_href l in
       let long := negb (String.length href <=? 100) in
       let ui_href := if long then substring 0 100 href else href in
       set_links_list
         (append (links_list w) {| shown := text ++ " -> " ++ ui_href;
                                   cut := long; tooltip := href |}) w)
    w.

(** *** The DOM callback *)

(** What the [with open(...)] statement does: the file is written, or
    [open] raises and the file stays as it was. *)
Inductive write_result :=
| Written
| WriteRaises (e : exn).

(** [_on_dom(dom)]; [io] is the behaviour of the file system at the
    [with open(...)] statement. *)
Definition _on_dom (w : window) (dom : option dom_result) (io : write_result)
    : window :=
  let visible_text := match dom with Some d => js_text d | None => EmptyString end in
  let links := match dom with Some d => js_links d | None => [] end in
  let ranked := rank_links links in
  let primary :=
    match ranked with
    | top :: _ => if (0.3 <? r_score top)%float then Some (r_href top) else None
    | [] => None
    end in
  let data :=
    {| email_ptr := ptr w;
       dom := {| visible_text := visible_text; dom_links := links |};
       e_links := {| primary_portal := primary;
                   aux := map (fun r => {| l_text := r_text r; l_href := r_href r |})
                              (slice 1 6 ranked) |} |} in
  let w := set_email_data (Some data) w in
  match io with
  | WriteRaises e =>
      critical "DOM Error" (exn_str e ++ NL ++ NL ++ format_exc e) w
  | Written =>
      let w := set_disk (Some (dumps (extraction_json data))) w in
      let w := _display_details (ptr w) (primary_portal (e_links data)) w in
      let w := _display_body visible_text w in
      _display_links links w
  end.

(** *** The chat *)

(** [_compose_context()]; [None] stands for the [AttributeError] of
    reading a section while [self.email_data] is still [None]. *)
Definition _compose_context (w : window) : option string :=
  let parts : list string := [] in
  match
    (if header_check w then
       match email_data w with
       | Some d => Some (append parts ("Header:" ++ NL ++ dumps (pointer_json (email_ptr d))))
       | None => None
       end
     else Some parts)
  with
  | None => None
  | Some parts =>
  match
    (if body_check w then
       match email_data w with
       | Some d => Some (append parts ("Body:" ++ NL ++ visible_text (dom d)))
       | None => None
       end
     else Some parts)
  with
  | None => None
  | Some parts =>
  match
    (if links_check w then
       match email_data w with
       | Some d =>
           Some (append parts ("Links:" ++ NL
                               ++ dumps (Arr (map link_json (dom_links (dom d))))))
       | None => None
       end
     else Some parts)
  with
  | None => None
  | Some parts => Some (join (NL ++ NL) parts)
  end end end.

Definition PREAMBLE : string :=
  "You are a bid-invite extractor. Answer the user precisely." ++ NL
  ++ "If asked, extract fields as JSON using keys: project_name, address, zip, due_date, gc_name, contacts[], links.primary."
  ++ NL.

(** [_send_to_llm()] up to the submission: the window afterwards and the
    prompt handed to the pool, if one is. *)
Definition _send_to_llm (w : window) : window * option string :=
  match email_data w with
  | None => (chat_append (Text "No email data yet.") w, None)
  | Some _ =>
      let user_msg := strip (chat_input w) in
      if negb (truthy user_msg) then (w, None) else
      match _compose_context w with
      | None => (w, None)
      | Some context =>
          let full_prompt :=
            context ++ NL ++ NL ++ PREAMBLE ++ NL ++ "User: " ++ user_msg in
          let w := chat_append (Text ("You: " ++ user_msg)) w in
          let w := set_chat_input EmptyString w in
          let w := chat_append Pending w in
          (w, Some full_prompt)
      end
  end.

(** What the endpoint does with one request. *)
Inductive endpoint_result :=
| Reply (content : string)
| Refuses (e : exn).

(** [call_ollama(cfg, message)] *)
Definition call_ollama (r : endpoint_result) : string + exn :=
  match r with
  | Reply content => inl (strip content)
  | Refuses e => inr e
  end.

(** The closure [task] run by the pool. *)
Definition task (r : endpoint_result) : string :=
  match call_ollama r with
  | inl txt => txt
  | inr e => "[ERROR] " ++ exn_str e
  end.

(** The three panels filled by [_on_dom]. *)
Definition views (w : window) : list string * string * list link_item :=
  (details w, body_browser w, links_list w).

(** The window as [__init__] leaves it, before the DOM callback. *)
Definition init_window (p : pointer) : window :=
  {| ptr := p; email_data := None; details := []; body_browser := EmptyString;
     links_list := []; header_check := false; body_check := false;
     links_check := false; chat_display := []; chat_input := EmptyString;
     dialogs := []; disk := None |}.

(** The primary link of the record held by the window, if any. *)
Definition primary_of (w : window) : option string :=
  match email_data w with
  | Some d => primary_portal (e_links d)
  | None => None
  end.

(** The auxiliary links of the record held by the window. *)
Definition aux_of (w : window) : list link :=
  match email_data w with
  | Some d => aux (e_links d)
  | None => []
  end.

(** *** The composer as the specification words it *)

Definition header_block (d : extraction) : string :=
  "Header:" ++ NL ++ dumps (pointer_json (email_ptr d)).
Definition body_block (d : extraction) : string :=
  "Body:" ++ NL ++ visible_text (dom d).
Definition links_block (d : extraction) : string :=
  "Links:" ++ NL ++ dumps (Arr (map link_json (dom_links (dom d)))).

(** The enabled blocks in the order header, body, links with one blank
    line between two of them; a disabled section leaves no trace. *)
Definition spec_compose (d : extraction) (include_header include_body include_links : bool)
    : string :=
  let blank := NL ++ NL in
  match include_header, include_body, include_links with
  | true, true, true =>
      header_block d ++ blank ++ body_block d ++ blank ++ links_block d
  | true, true, false => header_block d ++ blank ++ body_block d
  | true, false, true => header_block d ++ blank ++ links_block d
  | false, true, true => body_block d ++ blank ++ links_block d
  | true, false, false => header_block d
  | false, true, false => body_block d
  | false, false, true => links_block d
  | false, false, false => EmptyString
  end.

(** The closure [on_done], given what [fut.result()] returns or raises:
    the line it queues for the chat log. *)
Definition on_done (res : string + exn) : chat_line :=
  let txt :=
    match res with
    | inl txt => txt
    | inr e => "[ERROR] " ++ exn_str e
    end in
  Text ("Model: " ++ txt).

End Viewer.

(* ================================================================= *)
(** ** The control thread, the pool and the endpoint *)

Module Session.
Import PyStr Scoring Viewer.

(** A future of the pool: its prompt is still with the endpoint, or
    [task] has returned (or raised). *)
Inductive future :=
| Running (prompt : string)
| Finished (res : string + exn).

(** What waits in the event queue of the control thread. *)
Inductive event :=
| Click_send                         (* the Send button *)
| Edit_input (s : string)            (* the user rewrites the input line *)
| On_done (fut : nat)                (* [QTimer.singleShot(0, on_done)] *)
| Invoke_append (line : chat_line).  (* the queued [append] of [on_done] *)

(** Where the control thread is: between two events of its loop, or
    inside [fut.result()] of [on_done]. *)
Inductive control :=
| In_loop
| In_result (fut : nat).

Record session := {
  win : window;
  control_thread : control;
  queue : list event;
  pool : list future
}.

(** [fut.result()] can return once the future is finished. *)
Definition finished (s : session) (fut : nat) : option (string + exn) :=
  match nth_error (pool s) fut with
  | Some (Finished res) => Some res
  | _ => None
  end.

Fixpoint set_nth {A : Type} (n : nat) (x : A) (l : list A) : list A :=
  match l, n with
  | [], _ => []
  | _ :: l', 0 => x :: l'
  | y :: l', S k => y :: set_nth k x l'
  end.

(** The control thread runs the handler of one event. *)
Definition handle (ev : event) (s : session) : session :=
  match ev with
  | Click_send =>
      match _send_to_llm (win s) with
      | (w, None) =>
          {| win := w; control_thread := control_thread s;
             queue := queue s; pool := pool s |}
      | (w, Some full_prompt) =>
          {| win := w; control_thread := control_thread s;
             queue := append (queue s) (On_done (List.length (pool s)));
             pool := append (pool s) (Running full_prompt) |}
      end
  | Edit_input t =>
      {| win := set_chat_input t (win s); control_thread := control_thread s;
         queue := queue s; pool := pool s |}
  | On_done fut =>
      match finished s fut with
      | Some res =>
          {| win := win s; control_thread := In_loop;
             queue := append (queue s) (Invoke_append (on_done res));
             pool := pool s |}
      | None =>
          {| win := win s; control_thread := In_result fut;
             queue := queue s; pool := pool s |}
      end
  | Invoke_append line =>
      {| win := chat_append line (win s); control_thread := control_thread s;
         queue := queue s; pool := pool s |}
  end.

(** What can happen next: the control thread runs, the user's action is
    posted to the queue, or the endpoint answers the call of a future. *)
Inductive tick :=
| Control_runs
| User_posts (ev : event)
| Call_returns (fut : nat) (r : endpoint_result).

Definition step (s : session) (t : tick) : session :=
  match t with
  | Control_runs =>
      match control_thread s with
      | In_loop =>
          match queue s with
          | [] => s
          | ev :: rest =>
              handle ev {| win := win s; control_thread := In_loop;
                           queue := rest; pool := pool s |}
          end
      | In_result fut => handle (On_done fut) s
      end
  | User_posts ev =>
      {| win := win s; control_thread := control_thread s;
         queue := append (queue s) ev; pool := pool s |}
  | Call_returns fut r =>
      match nth_error (pool s) fut with
      | Some (Running _) =>
          {| win := win s; control_thread := control_thread s;
             queue := queue s;
             pool := set_nth fut (Finished (inl (task r))) (pool s) |}
      | _ => s
      end
  end.

Definition run (ticks : list tick) (s : session) : session :=
  fold_left step ticks s.

End Session.

(* ================================================================= *)
(** ** Sample data *)

Module Samples.
Import PyStr Scoring Ranking Json Viewer Session.

Definition sample_ptr : pointer :=
  {| account := "Commercial Estimator"; mailbox := "Inbox";
     message_id := Some "00000000A1B2"; subject := "Invitation to bid";
     from := "invites@planhub.com" |}.

(** The two links of the specification's scenario. *)
Definition link_view : link :=
  {| l_text := "View Project"; l_href := "https://planhub.com/bid/1234/view" |}.
Definition link_unsubscribe : link :=
  {| l_text := "Unsubscribe"; l_href := "https://mail.example.com/unsubscribe?x=1" |}.

(** A second link with the score of [link_view]. *)
Definition link_view_again : link :=
  {| l_text := "View Project"; l_href := "https://planhub.com/bid/1234/plans" |}.

(** One intent phrase and nothing else: the score is the threshold. *)
Definition link_submit : link := {| l_text := "Submit"; l_href := "x" |}.

Definition sample_dom : dom_result :=
  {| js_text := "You are invited to bid."; js_links := [link_view; link_unsubscribe] |}.

Definition sample_exn : exn :=
  {| exn_type := "PermissionError";
     exn_str := "[Errno 13] Permission denied: 'email_output.json'";
     exn_frames := "  File combined_viewer.py, line 296, in _on_dom" ++ NL |}.

Definition sample_transport_exn : exn :=
  {| exn_type := "ConnectionError";
     exn_str := "Failed to connect to Ollama";
     exn_frames := "  File combined_viewer.py, line 379, in task" ++ NL |}.

(** A window that holds a record and a typed question. *)
Definition sample_window : window :=
  set_chat_input "When is the bid due?"
    (_on_dom (init_window sample_ptr) (Some sample_dom) Written).

Definition sample_session : session :=
  {| win := sample_window; control_thread := In_loop;
     queue := [Click_send]; pool := [] |}.

End Samples.

(* ================================================================= *)
(** ** Configuration and the sender rule *)

Module Config.
Import PyStr.

(** The values [json.load] can put into the configuration (numbers are
    the integers). *)
Inductive pyval :=
| PNone
| PBool (b : bool)
| PInt (n : Z)
| PStr (s : string)
| PList (items : list pyval)
| PDict (members : list (string * pyval)).

(** A [dict] with string keys, in insertion order. *)
Definition dict : Type := list (string * pyval).

(** What a call can raise. *)
Inductive error :=
| KeyError (key : string)
| AttributeError
| TypeError
| StoreNotFound        (* RuntimeError: Outlook store not found *)
| NoMatchingEmail      (* RuntimeError: No matching email found *)
| FolderError.         (* the lookup of the Inbox folder fails *)

Inductive outcome (A : Type) :=
| Returns (a : A)
| Raises (e : error).
Arguments Returns {A} a.
Arguments Raises {A} e.

(** [d.get(key)] *)
Fixpoint get (d : dict) (key : string) : option pyval :=
  match d with
  | [] => None
  | (k, v) :: d' => if String.eqb k key then Some v else get d' key
  end.

(** [d.setdefault(key, v)] *)
Definition setdefault (d : dict) (key : string) (v : pyval) : dict :=
  match get d key with
  | Some _ => d
  | None => (d ++ [(key, v)])%list
  end.

(** The defaults of [load_config], in the order they are applied. *)
Definition DEFAULTS : dict :=
  [("account", PStr "Commercial Estimator");
   ("sender_domain", PStr "planhub.com");
   ("senders", PList []);
   ("ollama_host", PStr "http://localhost:11434");
   ("model", PStr "gemma2:9b-instruct-q4");
   ("dom_delay_ms", PInt 800)].

(** [load_config(path)] after [json.load] has produced the dict [cfg]. *)
Definition load_config (cfg : dict) : dict :=
  let cfg := setdefault cfg "account" (PStr "Commercial Estimator") in
  let cfg := setdefault cfg "sender_domain" (PStr "planhub.com") in
  let cfg := setdefault cfg "senders" (PList []) in
  let cfg := setdefault cfg "ollama_host" (PStr "http://localhost:11434") in
  let cfg := setdefault cfg "model" (PStr "gemma2:9b-instruct-q4") in
  let cfg := setdefault cfg "dom_delay_ms" (PInt 800) in
  cfg.

(** Truth value of a value. *)
Definition is_true (v : pyval) : bool :=
  match v with
  | PNone => false
  | PBool b => b
  | PInt n => negb (n =? 0)%Z
  | PStr s => truthy s
  | PList items => match items with [] => false | _ => true end
  | PDict members => match members with [] => false | _ => true end
  end.

Fixpoint chars (s : string) : list pyval :=
  match s with
  | EmptyString => []
  | String c s' => PStr (String c EmptyString) :: chars s'
  end.

(** What [for s in v] runs over: the items of a list, the characters of
    a string, the keys of a dict; anything else is not iterable. *)
Definition iterate (v : pyval) : outcome (list pyval) :=
  match v with
  | PList items => Returns items
  | PStr s => Returns (chars s)
  | PDict members => Returns (map (fun kv => PStr (fst kv)) members)
  | _ => Raises TypeError
  end.

(** [[s.lower() for s in items]] *)
Fixpoint lower_each (items : list pyval) : outcome (list string) :=
  match items with
  | [] => Returns []
  | PStr s :: rest =>
      match lower_each rest with
      | Returns l => Returns (lower s :: l)
      | Raises e => Raises e
      end
  | _ :: _ => Raises AttributeError
  end.

(** [x in l] for a list of strings. *)
Definition mem (x : string) (l : list string) : bool :=
  existsb (String.eqb x) l.

(** [sender_matches(smtp, cfg)] *)
Definition sender_matches (smtp : option string) (cfg : dict) : outcome bool :=
  let smtp_l := lower (or_empty smtp) in
  match iterate (match get cfg "senders" with Some v => v | None => PList [] end) with
  | Raises e => Raises e
  | Returns items =>
  match lower_each items with
  | Raises e => Raises e
  | Returns allow =>
  match (let v := match get cfg "sender_domain" with Some v => v | None => PNone end in
         if is_true v then v else PStr EmptyString) with
  | PStr s =>
      let domain := lower s in
      if match allow with [] => false | _ => true end && mem smtp_l allow
      then Returns true
      else Returns (truthy domain && contains domain smtp_l)
  | _ => Raises AttributeError
  end end end.

End Config.

(* ================================================================= *)
(** ** The mailbox *)

Module Mailbox.
Import PyStr Config Viewer.

(** [itm.Sender.GetExchangeUser()] and the user's [PrimarySmtpAddress]. *)
Inductive exchange_lookup :=
| ExchangeRaises
| NoExchangeUser
| ExchangeUser (primary_smtp : option string).

(** Reading [itm.SenderEmailAddress]. *)
Inductive address_lookup :=
| AddressRaises
| Address (value : option string).

(** A mail item; an attribute read with [getattr] and a default is
    [None] where the item lacks it. *)
Record mail_item := {
  Sender : exchange_lookup;
  SenderEmailAddress : address_lookup;
  EntryID : option string;
  Subject : option string;
  HTMLBody : option string;
  Body : option string
}.

(** A top-level folder of the namespace: its name and the items of its
    Inbox in the order the sorted collection hands them out ([None]
    where the folder has no Inbox). *)
Record store := {
  Name : string;
  Inbox : option (list mail_item)
}.

(** [find_store(namespace, display_name)] *)
Fixpoint find_store (folders : list store) (display_name : pyval)
    : outcome (option store) :=
  match folders with
  | [] => Returns None
  | f :: rest =>
      match display_name with
      | PStr d =>
          if String.eqb (lower (strip (Name f))) (lower (strip d))
          then Returns (Some f)
          else find_store rest display_name
      | _ => Raises AttributeError
      end
  end.

(** The address the loop works out for one item. *)
Definition sender_address (itm : mail_item) : string :=
  let smtp := EmptyString in
  let smtp :=
    match Sender itm with
    | ExchangeUser p => or_empty p
    | NoExchangeUser => EmptyString
    | ExchangeRaises => smtp
    end in
  if negb (truthy smtp) then
    match SenderEmailAddress itm with
    | Address v => or_empty v
    | AddressRaises => EmptyString
    end
  else smtp.

(** [getattr(itm, 'HTMLBody', '') or getattr(itm, 'Body', '')] *)
Definition item_html (itm : mail_item) : string :=
  if truthy (or_empty (HTMLBody itm)) then or_empty (HTMLBody itm)
  else or_empty (Body itm).

(** The loop over the items. *)
Fixpoint first_matching (cfg : dict) (account : string) (items : list mail_item)
    : outcome (pointer * string) :=
  match items with
  | [] => Raises NoMatchingEmail
  | itm :: rest =>
      let smtp := sender_address itm in
      match sender_matches (Some smtp) cfg with
      | Raises e => Raises e
      | Returns true =>
          Returns ({| account := account; mailbox := "Inbox";
                      message_id := EntryID itm;
                      subject := or_empty (Subject itm);
                      from := lower smtp |},
                   item_html itm)
      | Returns false => first_matching cfg account rest
      end
  end.

(** [get_newest_matching_email_html(cfg)] on the folders of the
    namespace. *)
Definition get_newest_matching_email_html (cfg : dict) (folders : list store)
    : outcome (pointer * string) :=
  match get cfg "account" with
  | None => Raises (KeyError "account")
  | Some acc =>
      match find_store folders acc with
      | Raises e => Raises e
      | Returns None => Raises StoreNotFound
      | Returns (Some st) =>
          match Inbox st with
          | None => Raises FolderError
          | Some items =>
              match acc with
              | PStr a => first_matching cfg a items
              | _ => Raises AttributeError
              end
          end
      end
  end.

End Mailbox.

(* ================================================================= *)
(** ** The page script of [_extract_dom] *)

Module PageScript.
Import PyStr Ranking Viewer.

(** What the script reads from one [a] element: [a.href], [a.innerText],
    the computed [display] and [visibility], the number
    [parseFloat(s.opacity||'1')], and the size of its bounding box. *)
Record anchor := {
  a_href : string;
  a_innerText : string;
  a_display : string;
  a_visibility : string;
  a_opacity : float;
  a_width : float;
  a_height : float
}.

(** White space and line terminators of the script language below
    U+0100. *)
Definition js_space (c : ascii) : bool :=
  let n := ord c in
  ((9 <=? n) && (n <=? 13)) || (n =? 32) || (n =? 160).

Fixpoint trim_start (s : string) : string :=
  match s with
  | EmptyString => EmptyString
  | String c s' => if js_space c then trim_start s' else s
  end.

Fixpoint trim_end (s : string) : string :=
  match s with
  | EmptyString => EmptyString
  | String c s' =>
      match trim_end s' with
      | EmptyString => if js_space c then EmptyString else String c EmptyString
      | r => String c r
      end
  end.

(** [s.trim()] *)
Definition trim (s : string) : string := trim_end (trim_start s).

(** [isVisible(el)] *)
Definition isVisible (a : anchor) : bool :=
  if String.eqb (a_display a) "none" || String.eqb (a_visibility a) "hidden"
     || (a_opacity a =? 0)%float
  then false
  else (0 <? a_width a)%float && (0 <? a_height a)%float.

(** The script: the anchors kept, each as [{text, href}], and the text
    of the body ([None] where there is no body or no text). *)
Definition extract (anchors : list anchor) (body_text : option string)
    : dom_result :=
  let links :=
    map (fun a => {| l_text := trim (a_innerText a); l_href := a_href a |})
      (filter (fun a => truthy (a_href a)
                        && negb (prefix "mailto:" (a_href a))
                        && negb (prefix "tel:" (a_href a))
                        && isVisible a)
              anchors) in
  {| js_text := or_empty body_text; js_links := links |}.

End PageScript.

(* ================================================================= *)
(** ** Quantities used in the statements below *)

Module Measures.
Import PyStr Scoring Ranking Viewer Session.

(** How often each rule of [score_link] fires on a link: trusted
    domains, intent phrases, additions of 0.1, negative hints. *)
Definition profile (href text : string) : nat * nat * nat * nat :=
  let h := lower href in
  let t := lower text in
  (hits WHITELIST_DOMAINS h, hits INTENT_WORDS t,
   (if 4 <=? count_char "/" h then 1 else 0) + hits HREF_HINTS h,
   hits NEGATIVE_HINTS h).

(** One more hit of a positive rule raises the tally, one more negative
    hint lowers it. *)
Definition steps_strict (a b n e : nat) : bool :=
  (tally a b n e <? tally (S a) b n e)%float
  && (tally a b n e <? tally a (S b) n e)%float
  && (tally a b n e <? tally a b (S n) e)%float
  && (tally a b n (S e) <? tally a b n e)%float.

Definition all_steps_strict : bool :=
  forallb (fun a =>
  forallb (fun b =>
  forallb (fun n =>
  forallb (fun e => steps_strict a b n e) (seq 0 8)) (seq 0 8)) (seq 0 9)) (seq 0 6).



(** The placeholder line appended at each submission. *)
Definition is_placeholder (l : chat_line) : bool :=
  match l with
  | Pending => true
  | Text _ => false
  end.

Definition placeholders (log : list chat_line) : nat :=
  List.length (filter is_placeholder log).

(** A line of the log that begins with the Model label: the placeholder,
    whose text is that label and the ellipsis, or a line of [on_done]. *)
Definition is_model_line (l : chat_line) : bool :=
  match l with
  | Text s => prefix "Model: " s
  | Pending => true
  end.

Definition model_lines (log : list chat_line) : nat :=
  List.length (filter is_model_line log).

(** Results on their way to the log: a pending [on_done], a queued
    [append], or the control thread inside [fut.result()]. *)
Definition on_the_way (ev : event) : bool :=
  match ev with
  | On_done _ | Invoke_append _ => true
  | _ => false
  end.

Definition in_flight (s : session) : nat :=
  List.length (filter on_the_way (queue s))
  + match control_thread s with In_result _ => 1 | In_loop => 0 end.



(** What the chat has no business with: the pointer, the record, the
    panels, the dialogs, the file and the three boxes. *)
Definition outside_chat (w : window) :=
  (ptr w, email_data w, views w, dialogs w, disk w,
   (header_check w, body_check w, links_check w)).

(** The item [_display_links] makes for one link. *)
Definition item_of (l : link) : link_item :=
  let long := negb (String.length (l_href l) <=? 100) in
  {| shown := l_text l ++ " -> "
              ++ (if long then substring 0 100 (l_href l) else l_href l);
     cut := long; tooltip := l_href l |}.

(** A turn of the control thread or a post of the user. *)
Definition local_tick (t : tick) : bool :=
  match t with
  | Call_returns _ _ => false
  | _ => true
  end.

End Measures.

(* ================================================================= *)
(** ** More sample data *)

Module Cases.
Import PyStr Scoring Ranking Json Viewer Session Config Mailbox PageScript.

Definition file_config : dict :=
  [("account", PStr "Estimating"); ("senders", PList [PStr "Bids@Example.com"])].

Definition item_newsletter : mail_item :=
  {| Sender := ExchangeRaises; SenderEmailAddress := Address (Some "news@shop.example");
     EntryID := Some "0001"; Subject := Some "Sale";
     HTMLBody := Some "<p>sale</p>"; Body := Some "sale" |}.

Definition item_invite : mail_item :=
  {| Sender := ExchangeUser (Some "Invites@PlanHub.com");
     SenderEmailAddress := Address (Some "/o=exchange/cn=invites");
     EntryID := Some "0002"; Subject := Some "Invitation to bid";
     HTMLBody := None; Body := Some "You are invited to bid." |}.

Definition sample_folders : list store :=
  [ {| Name := "Personal"; Inbox := Some [item_invite] |};
    {| Name := " estimating "; Inbox := Some [item_newsletter; item_invite] |} ].

Definition anchor_portal : anchor :=
  {| a_href := "https://planhub.com/bid/1234/view"; a_innerText := "  View Project ";
     a_display := "inline"; a_visibility := "visible"; a_opacity := 1%float;
     a_width := 120%float; a_height := 18%float |}.

Definition anchor_mail : anchor :=
  {| a_href := "mailto:bids@planhub.com"; a_innerText := "Write to us";
     a_display := "inline"; a_visibility := "visible"; a_opacity := 1%float;
     a_width := 80%float; a_height := 18%float |}.

Definition anchor_hidden : anchor :=
  {| a_href := "https://planhub.com/project/track"; a_innerText := EmptyString;
     a_display := "none"; a_visibility := "visible"; a_opacity := 1%float;
     a_width := 0%float; a_height := 0%float |}.

Definition long_link : link :=
  {| l_text := "Plans";
     l_href := "https://files.example.com/"
               ++ "0123456789012345678901234567890123456789012345678901234567890123456789012345678901234567890123456789" |}.

End Cases.

(* ================================================================= *)
(** * Properties *)

Import PyStr Scoring Ranking Json Viewer Session Samples.

(** ** Strings *)

Lemma lower_char_idem (c : ascii) : lower_char (lower_char c) = lower_char c.
Proof.
  destruct c as [[] [] [] [] [] [] [] []]; reflexivity.
Qed.

Lemma lower_idem (s : string) : lower (lower s) = lower s.
Proof.
  induction s as [|c s IH]; simpl; [reflexivity|].
  now rewrite lower_char_idem, IH.
Qed.

Lemma lower_truthy (s : string) : truthy (lower s) = truthy s.
Proof. destruct s; reflexivity. Qed.

Lemma lstrip_all_space (s : string) :
  all_space s = true -> lstrip s = EmptyString.
Proof.
  induction s as [|c s IH]; simpl; [reflexivity|].
  destruct (isspace c); simpl; [exact IH | discriminate].
Qed.

Lemma lstrip_head (s : string) :
  match lstrip s with
  | EmptyString => all_space s = true
  | String c _ => isspace c = false
  end.
Proof.
  induction s as [|c s IH]; simpl; [reflexivity|].
  destruct (isspace c) eqn:E; simpl; [exact IH | exact E].
Qed.

Lemma rstrip_empty (s : string) :
  rstrip s = EmptyString -> all_space s = true.
Proof.
  induction s as [|c s IH]; simpl; [reflexivity|].
  destruct (rstrip s) eqn:E.
  - destruct (isspace c); [intros _; now apply IH | discriminate].
  - discriminate.
Qed.

(** [s.strip()] is empty exactly when [s] is empty or all whitespace. *)
Lemma strip_empty_iff (s : string) :
  strip s = EmptyString <-> all_space s = true.
Proof.
  unfold strip. split.
  - intros H. pose proof (lstrip_head s) as Hh.
    destruct (lstrip s) as [|c r] eqn:E; [exact Hh|].
    apply rstrip_empty in H. simpl in H. rewrite Hh in H. discriminate.
  - intros H. now rewrite (lstrip_all_space s H).
Qed.


(** ** The scorer *)

Lemma add_times_succ (n : nat) (w x : float) :
  add_times (S n) w x = add_times n w (x + w)%float.
Proof. exact (Nat.iter_succ_r n float (fun a => (a + w)%float) x). Qed.

Lemma sub_times_succ (n : nat) (w x : float) :
  sub_times (S n) w x = sub_times n w (x - w)%float.
Proof. exact (Nat.iter_succ_r n float (fun a => (a - w)%float) x). Qed.

Lemma add_times_plus (m n : nat) (w x : float) :
  add_times n w (add_times m w x) = add_times (m + n) w x.
Proof.
  unfold add_times. rewrite Nat.add_comm. symmetry. apply Nat.iter_add.
Qed.

(** A loop that adds [w] for every substring found adds it [hits] times. *)
Lemma for_each_add (subs : list string) (s : string) (w x : float) :
  for_each subs (fun score p => if contains p s then (score + w)%float else score) x
  = add_times (hits subs s) w x.
Proof.
  unfold for_each, hits. revert x.
  induction subs as [|p subs IH]; intros x; simpl; [reflexivity|].
  destruct (contains p s); simpl List.length.
  - now rewrite IH, add_times_succ.
  - apply IH.
Qed.

Lemma for_each_sub (subs : list string) (s : string) (w x : float) :
  for_each subs (fun score p => if contains p s then (score - w)%float else score) x
  = sub_times (hits subs s) w x.
Proof.
  unfold for_each, hits. revert x.
  induction subs as [|p subs IH]; intros x; simpl; [reflexivity|].
  destruct (contains p s); simpl List.length.
  - now rewrite IH, sub_times_succ.
  - apply IH.
Qed.

Lemma score_link_spec_score (href text : option string) :
  score_link href text = spec_score (or_empty href) (or_empty text).
Proof.
  unfold score_link, spec_score.
  rewrite lower_truthy.
  destruct (truthy (or_empty href)); simpl negb; cbv iota; [|reflexivity].
  rewrite !for_each_add, for_each_sub.
  now destruct (4 <=? count_char "/" (lower (or_empty href))).
Qed.

(** ** The attainable scores and their order

    The four loops of [score_link] run over lists of 5, 8, 6 and 7
    substrings, so a score is the sentinel or one of finitely many
    tallies.  On these values the comparisons of binary64 are decided by
    evaluation, once and for all. *)

Lemma chart_agrees : all_pairs agree score_chart = true.
Proof. vm_compute. reflexivity. Qed.

Lemma chart_positions :
  forallb (fun p => (score_pos (fst p) =? snd p)%Z) score_chart = true.
Proof. vm_compute. reflexivity. Qed.

Lemma chart_values : map fst score_chart = score_values.
Proof. vm_compute. reflexivity. Qed.

Lemma tallies_charted :
  tallies = map (fun i => nth i score_values nan) tally_pos.
Proof. vm_compute. reflexivity. Qed.

Lemma tally_pos_bound :
  forallb (fun i => i <? List.length score_values) tally_pos = true.
Proof. vm_compute. reflexivity. Qed.

Lemma sentinel_first : nth 0 score_values nan = (-999.0)%float.
Proof. vm_compute. reflexivity. Qed.

Lemma score_values_nonempty : 0 < List.length score_values.
Proof. vm_compute. lia. Qed.

#[local] Opaque score_values score_chart score_pos tally_pos.

Lemma charted (x : float) :
  attainable x -> In (x, score_pos x) score_chart.
Proof.
  unfold attainable. rewrite <- chart_values. intros H.
  apply in_map_iff in H as [[y k] [Hy Hin]]. simpl in Hy. subst y.
  pose proof chart_positions as P. rewrite forallb_forall in P.
  specialize (P _ Hin). simpl in P. apply Z.eqb_eq in P. now subst k.
Qed.

Lemma attainable_agree (x y : float) :
  attainable x -> attainable y ->
  agree (x, score_pos x) (y, score_pos y) = true.
Proof.
  intros Hx Hy. apply charted in Hx. apply charted in Hy.
  pose proof chart_agrees as P. unfold all_pairs in P.
  rewrite forallb_forall in P. specialize (P _ Hx).
  rewrite forallb_forall in P. exact (P _ Hy).
Qed.

Lemma attainable_ltb (x y : float) :
  attainable x -> attainable y ->
  (x <? y)%float = (score_pos x <? score_pos y)%Z.
Proof.
  intros Hx Hy. pose proof (attainable_agree x y Hx Hy) as P.
  unfold agree in P. simpl in P.
  apply andb_prop in P as [P _]. apply andb_prop in P as [P _].
  now apply eqb_prop.
Qed.

Lemma attainable_eqb (x y : float) :
  attainable x -> attainable y ->
  (x =? y)%float = (score_pos x =? score_pos y)%Z.
Proof.
  intros Hx Hy. pose proof (attainable_agree x y Hx Hy) as P.
  unfold agree in P. simpl in P.
  apply andb_prop in P as [P _]. apply andb_prop in P as [_ P].
  now apply eqb_prop.
Qed.

Lemma attainable_leb (x y : float) :
  attainable x -> attainable y ->
  (x <=? y)%float = (score_pos x <=? score_pos y)%Z.
Proof.
  intros Hx Hy. pose proof (attainable_agree x y Hx Hy) as P.
  unfold agree in P. simpl in P.
  apply andb_prop in P as [_ P].
  now apply eqb_prop.
Qed.

Lemma sentinel_attainable : attainable (-999.0)%float.
Proof.
  unfold attainable. rewrite <- sentinel_first.
  apply nth_In. exact score_values_nonempty.
Qed.

Lemma tally_in_tallies (a b n e : nat) :
  a <= 5 -> b <= 8 -> n <= 7 -> e <= 7 -> In (tally a b n e) tallies.
Proof.
  intros Ha Hb Hn He. unfold tallies.
  apply in_flat_map. exists a. split; [apply in_seq; lia|].
  apply in_flat_map. exists b. split; [apply in_seq; lia|].
  apply in_flat_map. exists n. split; [apply in_seq; lia|].
  apply in_map. apply in_seq. lia.
Qed.

Lemma tally_attainable (a b n e : nat) :
  a <= 5 -> b <= 8 -> n <= 7 -> e <= 7 -> attainable (tally a b n e).
Proof.
  intros Ha Hb Hn He.
  pose proof (tally_in_tallies a b n e Ha Hb Hn He) as H.
  rewrite tallies_charted in H.
  apply in_map_iff in H as [i [Hi Hin]].
  pose proof tally_pos_bound as B. rewrite forallb_forall in B.
  specialize (B _ Hin). apply Nat.ltb_lt in B.
  unfold attainable. rewrite <- Hi. now apply nth_In.
Qed.

Lemma hits_le (subs : list string) (s : string) :
  hits subs s <= List.length subs.
Proof. unfold hits. apply filter_length_le. Qed.

(** Whatever the link, its score is one of the attainable values. *)
Lemma score_link_attainable (href text : option string) :
  attainable (score_link href text).
Proof.
  rewrite score_link_spec_score. unfold spec_score.
  destruct (truthy (or_empty href)); simpl negb; cbv iota;
    [|exact sentinel_attainable].
  rewrite add_times_plus.
  set (h := lower (or_empty href)). set (t := lower (or_empty text)).
  pose proof (hits_le WHITELIST_DOMAINS h) as Ha.
  pose proof (hits_le INTENT_WORDS t) as Hb.
  pose proof (hits_le HREF_HINTS h) as Hd.
  pose proof (hits_le NEGATIVE_HINTS h) as He.
  simpl List.length in Ha, Hb, Hd, He.
  apply (tally_attainable (hits WHITELIST_DOMAINS h) (hits INTENT_WORDS t)
           ((if 4 <=? count_char "/" h then 1 else 0) + hits HREF_HINTS h)
           (hits NEGATIVE_HINTS h)); try lia.
  destruct (4 <=? count_char "/" h); lia.
Qed.

Lemma threshold_attainable : attainable 0.3%float.
Proof. exact (tally_attainable 0 1 0 0 ltac:(lia) ltac:(lia) ltac:(lia) ltac:(lia)). Qed.

(** ** The sort *)

Section SortFacts.
Context {A : Type} (key : A -> float).

#[local] Abbreviation keyed l := (Forall (fun a => attainable (key a)) l).
#[local] Abbreviation above := (fun a b => (key b <=? key a)%float = true).

Lemma insert_desc_perm (x : A) (l : list A) :
  Permutation (insert_desc key x l) (x :: l).
Proof.
  induction l as [|y l IH]; simpl; [reflexivity|].
  destruct (key x <? key y)%float; [|reflexivity].
  rewrite IH. apply perm_swap.
Qed.

Lemma sort_desc_perm (l : list A) : Permutation (sort_desc key l) l.
Proof.
  induction l as [|x l IH]; simpl; [reflexivity|].
  rewrite insert_desc_perm. now constructor.
Qed.

Lemma keyed_perm (l l' : list A) :
  Permutation l l' -> keyed l -> keyed l'.
Proof. intros P H. exact (Permutation_Forall P H). Qed.

Lemma insert_desc_sorted (x : A) (l : list A) :
  attainable (key x) -> keyed l ->
  StronglySorted above l -> StronglySorted above (insert_desc key x l).
Proof.
  intros Hx Hl Hs. induction Hs as [|y l Hs IH Hy]; simpl.
  - repeat constructor.
  - inversion Hl as [|? ? Ky Kl]; subst.
    destruct (key x <? key y)%float eqn:E.
    + constructor; [now apply IH|].
      apply (Permutation_Forall (Permutation_sym (insert_desc_perm x l))).
      constructor; [|exact Hy].
      rewrite attainable_ltb in E by assumption.
      rewrite attainable_leb by assumption.
      apply Z.ltb_lt in E. apply Z.leb_le. lia.
    + rewrite attainable_ltb in E by assumption. apply Z.ltb_ge in E.
      constructor; [now constructor|].
      constructor.
      * rewrite attainable_leb by assumption. now apply Z.leb_le.
      * rewrite Forall_forall in Hy, Kl |- *. intros z Hz.
        specialize (Hy z Hz). specialize (Kl z Hz). cbv beta in Hy.
        rewrite attainable_leb in Hy |- * by assumption.
        apply Z.leb_le in Hy. apply Z.leb_le. lia.
Qed.

Lemma sort_desc_sorted (l : list A) :
  keyed l -> StronglySorted above (sort_desc key l).
Proof.
  induction l as [|x l IH]; intros H; simpl; [constructor|].
  inversion H as [|? ? Kx Kl]; subst.
  apply insert_desc_sorted; [exact Kx| |now apply IH].
  exact (keyed_perm _ _ (Permutation_sym (sort_desc_perm l)) Kl).
Qed.

(** An insertion leaves the entries already there in their order. *)
Lemma insert_desc_keeps (x a b : A) (l : list A) :
  precedes a b l -> precedes a b (insert_desc key x l).
Proof.
  revert a b. induction l as [|y l IH]; intros a b (l1 & l2 & l3 & E).
  - now destruct l1.
  - simpl. destruct (key x <? key y)%float.
    + destruct l1 as [|z l1]; simpl in E; injection E as -> ->.
      * assert (In b (insert_desc key x (l2 ++ b :: l3))) as Hin.
        { apply (Permutation_in _ (Permutation_sym (insert_desc_perm x _))).
          right. apply in_elt. }
        apply in_split in Hin as (m1 & m2 & Hm).
        exists [], m1, m2. simpl. now rewrite Hm.
      * destruct (IH a b) as (m1 & m2 & m3 & Hm).
        { now exists l1, l2, l3. }
        exists (z :: m1), m2, m3. simpl. now rewrite Hm.
    + exists (x :: l1), l2, l3. simpl. now rewrite E.
Qed.

(** The new entry lands in front of every entry it is not below. *)
Lemma insert_desc_front (x b : A) (l : list A) :
  In b l -> (key x <? key b)%float = false ->
  precedes x b (insert_desc key x l).
Proof.
  induction l as [|y l IH]; intros Hin Hb; [contradiction|].
  simpl. destruct (key x <? key y)%float eqn:E.
  - destruct Hin as [->|Hin]; [congruence|].
    destruct (IH Hin Hb) as (m1 & m2 & m3 & Hm).
    exists (y :: m1), m2, m3. simpl. now rewrite Hm.
  - apply in_split in Hin as (m1 & m2 & Hm).
    exists [], m1, m2. simpl. now rewrite Hm.
Qed.

(** Stability, entry against entry: where [a] is not below [b], the
    sort leaves [a] in front of [b]. *)
Lemma sort_desc_stable (a b : A) (l : list A) :
  precedes a b l -> (key a <? key b)%float = false ->
  precedes a b (sort_desc key l).
Proof.
  intros (l1 & l2 & l3 & ->) Hab.
  induction l1 as [|x l1 IH]; simpl.
  - apply insert_desc_front; [|exact Hab].
    apply (Permutation_in _ (Permutation_sym (sort_desc_perm _))).
    apply in_elt.
  - now apply insert_desc_keeps.
Qed.

Lemma filter_insert_desc (s : float) (x : A) (l : list A) :
  attainable s -> attainable (key x) -> keyed l ->
  filter (fun a => (key a =? s)%float) (insert_desc key x l)
  = filter (fun a => (key a =? s)%float) (x :: l).
Proof.
  intros Hs Hx Hl. induction Hl as [|y l Hy Hl IH]; [reflexivity|].
  simpl insert_desc. destruct (key x <? key y)%float eqn:E; [|reflexivity].
  simpl filter in *. rewrite IH.
  destruct (key x =? s)%float eqn:Ex; [|reflexivity].
  destruct (key y =? s)%float eqn:Ey; [|reflexivity].
  rewrite attainable_ltb in E by assumption.
  rewrite attainable_eqb in Ex, Ey by assumption.
  apply Z.ltb_lt in E. apply Z.eqb_eq in Ex, Ey. lia.
Qed.

(** Stability, score by score: the entries tied at [s] come out in the
    order they went in. *)
Lemma filter_sort_desc (s : float) (l : list A) :
  attainable s -> keyed l ->
  filter (fun a => (key a =? s)%float) (sort_desc key l)
  = filter (fun a => (key a =? s)%float) l.
Proof.
  intros Hs Hl. induction Hl as [|x l Hx Hl IH]; [reflexivity|].
  simpl sort_desc. rewrite filter_insert_desc; try assumption.
  - simpl. now rewrite IH.
  - exact (keyed_perm _ _ (Permutation_sym (sort_desc_perm l)) Hl).
Qed.

End SortFacts.

(** ** The ranker *)

Lemma for_each_append {X Y : Type} (f : X -> Y) (xs : list X) (acc : list Y) :
  for_each xs (fun acc x => append acc (f x)) acc = (acc ++ map f xs)%list.
Proof.
  unfold for_each, append. revert acc.
  induction xs as [|x xs IH]; intros acc; simpl.
  - now rewrite app_nil_r.
  - now rewrite IH, <- app_assoc.
Qed.

(** The loop of [rank_links] scores the links one by one, in order. *)
Lemma rank_links_sorted_entries (ls : list link) :
  rank_links ls = sort_desc r_score (map score_entry ls).
Proof.
  unfold rank_links. f_equal.
  exact (for_each_append score_entry ls []).
Qed.

Lemma entries_attainable (ls : list link) :
  Forall (fun r => attainable (r_score r)) (map score_entry ls).
Proof.
  apply Forall_forall. intros r Hr.
  apply in_map_iff in Hr as [l [<- _]]. apply score_link_attainable.
Qed.

Lemma ranked_attainable (ls : list link) :
  Forall (fun r => attainable (r_score r)) (rank_links ls).
Proof.
  rewrite rank_links_sorted_entries.
  apply (Permutation_Forall (Permutation_sym (sort_desc_perm r_score _))).
  apply entries_attainable.
Qed.

Lemma rank_links_perm (ls : list link) :
  Permutation (rank_links ls) (map score_entry ls).
Proof. rewrite rank_links_sorted_entries. apply sort_desc_perm. Qed.

Lemma rank_links_descending (ls : list link) : descending (rank_links ls).
Proof.
  rewrite rank_links_sorted_entries. unfold descending.
  apply sort_desc_sorted. apply entries_attainable.
Qed.

Lemma precedes_map {X Y : Type} (f : X -> Y) (a b : X) (l : list X) :
  precedes a b l -> precedes (f a) (f b) (map f l).
Proof.
  intros (l1 & l2 & l3 & ->).
  exists (map f l1), (map f l2), (map f l3).
  now rewrite map_app, map_cons, map_app, map_cons.
Qed.

Lemma precedes_in {X : Type} (a b : X) (l : list X) :
  precedes a b l -> In a l /\ In b l.
Proof.
  intros (l1 & l2 & l3 & ->). split.
  - apply in_elt.
  - apply in_or_app. right. right. apply in_elt.
Qed.

Lemma slice_1_6 {X : Type} (l : list X) : slice 1 6 l = firstn 5 (tl l).
Proof. unfold slice. now destruct l. Qed.

(** ** The DOM callback *)

Lemma fold_left_inv {S X : Type} (P : S -> Prop) (f : S -> X -> S)
    (l : list X) (s : S) :
  P s -> (forall s x, P s -> P (f s x)) -> P (fold_left f l s).
Proof.
  intros Hs Hf. revert s Hs.
  induction l as [|x l IH]; intros s Hs; simpl; [exact Hs|].
  apply IH. now apply Hf.
Qed.

(** Filling the links list touches the links list only. *)
Lemma display_links_frame (ls : list link) (w : window) :
  let w' := _display_links ls w in
  email_data w' = email_data w /\ details w' = details w
  /\ body_browser w' = body_browser w /\ dialogs w' = dialogs w
  /\ chat_display w' = chat_display w /\ chat_input w' = chat_input w.
Proof.
  unfold _display_links, for_each.
  apply (fold_left_inv (fun w' =>
    email_data w' = email_data w /\ details w' = details w
    /\ body_browser w' = body_browser w /\ dialogs w' = dialogs w
    /\ chat_display w' = chat_display w /\ chat_input w' = chat_input w)).
  - now repeat split.
  - intros s x H. exact H.
Qed.

(** The primary link held after the callback. *)
Lemma on_dom_primary (w : window) (dom : option dom_result) (io : write_result) :
  primary_of (_on_dom w dom io)
  = match rank_links (match dom with Some d => js_links d | None => [] end) with
    | top :: _ => if (0.3 <? r_score top)%float then Some (r_href top) else None
    | [] => None
    end.
Proof.
  unfold primary_of, _on_dom. destruct io.
  - now rewrite (proj1 (display_links_frame _ _)).
  - reflexivity.
Qed.

(** The auxiliary links held after the callback. *)
Lemma on_dom_aux (w : window) (dom : option dom_result) (io : write_result) :
  aux_of (_on_dom w dom io)
  = map (fun r => {| l_text := r_text r; l_href := r_href r |})
        (slice 1 6 (rank_links (match dom with Some d => js_links d | None => [] end))).
Proof.
  unfold aux_of, _on_dom. destruct io.
  - now rewrite (proj1 (display_links_frame _ _)).
  - reflexivity.
Qed.

Lemma on_dom_sets_record (w : window) (dom : option dom_result) (io : write_result) :
  email_data (_on_dom w dom io) <> None.
Proof.
  unfold _on_dom. destruct io.
  - now rewrite (proj1 (display_links_frame _ _)).
  - discriminate.
Qed.

(* ================================================================= *)
(** * The claims *)

(** C1 - [score_link] computes the additive heuristic of the
    specification: the sentinel -999.0 for an empty (or missing) href,
    before any other rule; otherwise, from 0, 0.6 for each trusted domain
    found in the lower-cased href, 0.3 for each intent phrase found in the
    lower-cased text, 0.1 once for four or more separators, 0.1 for each
    structural hint and minus 1.0 for each negative hint found in the
    href.  The result depends on the inputs through their lower-cased
    forms only. *)
Theorem score_link_additive_heuristic :
  forall href text : option string,
    score_link href text = spec_score (or_empty href) (or_empty text)
    /\ score_link None text = (-999.0)%float
    /\ score_link (Some EmptyString) text = (-999.0)%float
    /\ score_link (Some (lower (or_empty href))) (Some (lower (or_empty text)))
       = score_link href text.
Proof.
  intros href text. repeat split.
  - apply score_link_spec_score.
  - rewrite !score_link_spec_score. simpl or_empty. unfold spec_score.
    now rewrite lower_truthy, !lower_idem.
Qed.

(** The scenario of the specification: the project link gathers
    0.6 + 0.3 + 0.3 + 0.1 + 0.1 + 0.1, the unsubscribe link -1.0. *)
Example score_link_scenario :
  score_link (Some (l_href link_view)) (Some (l_text link_view))
    = 1.5000000000000002%float
  /\ score_link (Some (l_href link_unsubscribe)) (Some (l_text link_unsubscribe))
    = (-1.0)%float
  /\ score_link (Some "HTTPS://PlanHub.COM/Bid/1234/View") (Some "VIEW PROJECT")
    = 1.5000000000000002%float.
Proof. repeat split; vm_compute; reflexivity. Qed.

(** C6 - [rank_links] returns the scored candidates by decreasing score,
    and the sort is stable: of two candidates whose scores do not differ,
    the one met first in the input comes first in the result; score by
    score, the tied entries keep their input order. *)
Theorem rank_links_descending_stable :
  forall ls : list link,
    descending (rank_links ls)
    /\ (forall l1 l2 : link,
          precedes l1 l2 ls ->
          (r_score (score_entry l1) =? r_score (score_entry l2))%float = true ->
          precedes (score_entry l1) (score_entry l2) (rank_links ls))
    /\ (forall href text : option string,
          tied (score_link href text) (rank_links ls)
          = tied (score_link href text) (map score_entry ls)).
Proof.
  intros ls. split; [apply rank_links_descending|]. split.
  - intros l1 l2 Hp He.
    rewrite rank_links_sorted_entries.
    apply sort_desc_stable; [now apply precedes_map|].
    rewrite attainable_eqb in He by apply score_link_attainable.
    rewrite attainable_ltb by apply score_link_attainable.
    apply Z.eqb_eq in He. apply Z.ltb_ge. lia.
  - intros href text. unfold tied.
    rewrite rank_links_sorted_entries.
    apply filter_sort_desc;
      [apply score_link_attainable | apply entries_attainable].
Qed.

Lemma rank_links_descending_stable_witness :
  precedes link_view link_view_again [link_unsubscribe; link_view; link_submit; link_view_again]
  /\ (r_score (score_entry link_view) =? r_score (score_entry link_view_again))%float = true
  /\ precedes (score_entry link_view) (score_entry link_view_again)
       (rank_links [link_unsubscribe; link_view; link_submit; link_view_again]).
Proof.
  assert (precedes link_view link_view_again
            [link_unsubscribe; link_view; link_submit; link_view_again]) as Hp.
  { exists [link_unsubscribe], [link_submit], []. reflexivity. }
  assert ((r_score (score_entry link_view)
           =? r_score (score_entry link_view_again))%float = true) as He.
  { vm_compute. reflexivity. }
  split; [exact Hp|]. split; [exact He|].
  exact (proj1 (proj2 (rank_links_descending_stable
           [link_unsubscribe; link_view; link_submit; link_view_again]))
           link_view link_view_again Hp He).
Defined.

(** Two links tied at the top keep their input order, around and past
    the lower ones. *)
Example rank_links_ties :
  map r_href (rank_links [link_unsubscribe; link_view; link_submit; link_view_again])
  = [l_href link_view; l_href link_view_again; l_href link_submit;
     l_href link_unsubscribe]
  /\ map r_href (rank_links [link_view_again; link_submit; link_view])
  = [l_href link_view_again; l_href link_view; l_href link_submit].
Proof. split; vm_compute; reflexivity. Qed.

(** C7 - every candidate gets its scored entry and none is dropped, the
    negative ones included; the ranked list is these entries by
    decreasing score, ties in input order; the auxiliary links are the
    entries at the positions 1 to 5 of that list, at most five, whatever
    their scores and whether or not a primary link is set; an empty input
    gives an empty ranking, no primary link and no auxiliary links, and no
    error dialog. *)
Theorem every_candidate_ranked_aux_next_five :
  forall (w : window) (text : string) (ls : list link) (io : write_result),
    let w' := _on_dom w (Some {| js_text := text; js_links := ls |}) io in
    Permutation (rank_links ls) (map score_entry ls)
    /\ descending (rank_links ls)
    /\ (forall href text : option string,
          tied (score_link href text) (rank_links ls)
          = tied (score_link href text) (map score_entry ls))
    /\ List.length (rank_links ls) = List.length ls
    /\ email_data w' <> None
    /\ aux_of w'
       = map (fun r => {| l_text := r_text r; l_href := r_href r |})
             (firstn 5 (tl (rank_links ls)))
    /\ List.length (aux_of w') = Nat.min 5 (List.length ls - 1)
    /\ rank_links [] = []
    /\ primary_of (_on_dom w (Some {| js_text := text; js_links := [] |}) Written) = None
    /\ aux_of (_on_dom w (Some {| js_text := text; js_links := [] |}) Written) = []
    /\ dialogs (_on_dom w (Some {| js_text := text; js_links := [] |}) Written)
       = dialogs w
    /\ primary_of (_on_dom w None Written) = None
    /\ aux_of (_on_dom w None Written) = [].
Proof.
  intros w text ls io w'.
  assert (List.length (rank_links ls) = List.length ls) as Hlen.
  { rewrite (Permutation_length (rank_links_perm ls)). apply length_map. }
  assert (aux_of w'
          = map (fun r => {| l_text := r_text r; l_href := r_href r |})
                (firstn 5 (tl (rank_links ls)))) as Haux.
  { unfold w'. rewrite on_dom_aux. simpl js_links. now rewrite slice_1_6. }
  split; [apply rank_links_perm|].
  split; [apply rank_links_descending|].
  split.
  { intros h t. unfold tied. rewrite rank_links_sorted_entries.
    apply filter_sort_desc;
      [apply score_link_attainable | apply entries_attainable]. }
  repeat split.
  - exact Hlen.
  - apply on_dom_sets_record.
  - exact Haux.
  - rewrite Haux, length_map, length_firstn.
    assert (List.length (tl (rank_links ls)) = List.length ls - 1) as Ht.
    { rewrite <- Hlen. destruct (rank_links ls); simpl; lia. }
    rewrite Ht. reflexivity.
Qed.

(** A negative candidate stays in the ranking and among the auxiliary
    links. *)
Example negative_candidate_kept :
  map r_href (rank_links [link_unsubscribe; link_view])
    = [l_href link_view; l_href link_unsubscribe]
  /\ aux_of (_on_dom (init_window sample_ptr)
               (Some {| js_text := EmptyString;
                        js_links := [link_unsubscribe; link_view] |}) Written)
     = [link_unsubscribe].
Proof. split; vm_compute; reflexivity. Qed.

(** C2 - the primary link is set exactly when the score at the head of
    the ranked list is strictly above 0.3, and it is then the href of that
    head entry, which no other entry outscores; a head score of 0.3 or
    less leaves the primary link absent, also for a single candidate that
    scores exactly 0.3. *)
Theorem primary_iff_top_above_threshold :
  forall (w : window) (text : string) (ls : list link) (io : write_result),
    let w' := _on_dom w (Some {| js_text := text; js_links := ls |}) io in
    (forall h : string,
        primary_of w' = Some h <->
        exists top rest,
          rank_links ls = top :: rest
          /\ (0.3 <? r_score top)%float = true /\ h = r_href top)
    /\ (forall top rest,
          rank_links ls = top :: rest ->
          (r_score top <=? 0.3)%float = true -> primary_of w' = None)
    /\ (forall top rest,
          rank_links ls = top :: rest ->
          Forall (fun r => (r_score r <=? r_score top)%float = true) rest)
    /\ (ls = [] -> primary_of w' = None)
    /\ r_score (score_entry link_submit) = 0.3%float
    /\ primary_of (_on_dom w (Some {| js_text := text; js_links := [link_submit] |}) io)
       = None.
Proof.
  intros w text ls io w'.
  assert (primary_of w'
          = match rank_links ls with
            | top :: _ => if (0.3 <? r_score top)%float then Some (r_href top) else None
            | [] => None
            end) as Hp.
  { unfold w'. now rewrite on_dom_primary. }
  split; [|split; [|split; [|split; [|split]]]].
  - intros h. rewrite Hp. split.
    + destruct (rank_links ls) as [|top rest]; [discriminate|].
      destruct (0.3 <? r_score top)%float eqn:E; [|discriminate].
      intros [= <-]. now exists top, rest.
    + intros (top & rest & -> & E & ->). now rewrite E.
  - intros top rest Hr Hle. rewrite Hp, Hr.
    pose proof (ranked_attainable ls) as Ha. rewrite Hr in Ha.
    inversion Ha as [|? ? Ht _]; subst.
    rewrite attainable_leb in Hle by (assumption || apply threshold_attainable).
    rewrite attainable_ltb by (assumption || apply threshold_attainable).
    apply Z.leb_le in Hle.
    destruct (Z.ltb_spec (score_pos 0.3) (score_pos (r_score top))); [lia|reflexivity].
  - intros top rest Hr.
    pose proof (rank_links_descending ls) as Hd. rewrite Hr in Hd.
    unfold descending in Hd. inversion Hd; subst. assumption.
  - intros ->. now rewrite Hp.
  - vm_compute. reflexivity.
  - rewrite on_dom_primary. vm_compute. reflexivity.
Qed.

Lemma primary_iff_top_above_threshold_witness :
  rank_links [link_submit; link_unsubscribe]
    = [score_entry link_submit; score_entry link_unsubscribe]
  /\ (r_score (score_entry link_submit) <=? 0.3)%float = true
  /\ primary_of (_on_dom (init_window sample_ptr)
                   (Some {| js_text := EmptyString;
                            js_links := [link_submit; link_unsubscribe] |}) Written)
     = None.
Proof.
  assert (rank_links [link_submit; link_unsubscribe]
          = [score_entry link_submit; score_entry link_unsubscribe]) as Hr.
  { vm_compute. reflexivity. }
  assert ((r_score (score_entry link_submit) <=? 0.3)%float = true) as Hle.
  { vm_compute. reflexivity. }
  split; [exact Hr|]. split; [exact Hle|].
  exact (proj1 (proj2 (primary_iff_top_above_threshold
           (init_window sample_ptr) EmptyString
           [link_submit; link_unsubscribe] Written))
           (score_entry link_submit) [score_entry link_unsubscribe] Hr Hle).
Defined.

(** Three additions of 0.1 exceed the threshold in binary64, so a deep
    link with two structural hints and nothing else becomes primary. *)
Example rounding_at_the_threshold :
  score_link (Some "https://x.com/project/bid/1") (Some "here")
    = 0.30000000000000004%float
  /\ primary_of (_on_dom (init_window sample_ptr)
        (Some {| js_text := EmptyString;
                 js_links := [ {| l_text := "here";
                                  l_href := "https://x.com/project/bid/1" |} ] |})
        Written)
     = Some "https://x.com/project/bid/1".
Proof. split; vm_compute; reflexivity. Qed.

(** ** Failures of the DOM callback *)

Lemma prefix_app (s t : string) : prefix s (s ++ t) = true.
Proof.
  induction s as [|c s IH]; simpl; [now destruct t|].
  destruct (ascii_dec c c) as [_|N]; [exact IH|now elim N].
Qed.

Lemma contains_prefix (sub s : string) :
  prefix sub s = true -> contains sub s = true.
Proof. intros H. destruct s; cbn [contains]; now rewrite H. Qed.

Lemma contains_head (sub post : string) : contains sub (sub ++ post) = true.
Proof. apply contains_prefix, prefix_app. Qed.

Lemma contains_app (sub pre post : string) :
  contains sub (pre ++ sub ++ post) = true.
Proof.
  induction pre as [|c pre IH].
  - exact (contains_head sub post).
  - cbn [String.append contains]. rewrite IH. apply orb_true_r.
Qed.

Lemma string_app_nil_r (s : string) : s ++ EmptyString = s.
Proof. induction s as [|c s IH]; simpl; [reflexivity|now rewrite IH]. Qed.

Lemma string_app_assoc (a b c : string) : (a ++ b) ++ c = a ++ b ++ c.
Proof. induction a as [|x a IH]; simpl; [reflexivity|now rewrite IH]. Qed.

Lemma on_dom_failure_dialog (w : window) (dom : option dom_result) (e : exn) :
  dialogs (_on_dom w dom (WriteRaises e))
  = append (dialogs w) ("DOM Error", exn_str e ++ NL ++ NL ++ format_exc e).
Proof. reflexivity. Qed.

(** C3, as the code has it - when writing [email_output.json] raises,
    the record is assembled and kept all the same and the failure is
    reported in a dialog, but the details, body and links panels are left
    as they were: the update of the panels comes after the write inside
    the same [try]. *)
Theorem persistence_failure_reported_views_kept :
  forall (w : window) (dom : option dom_result) (e : exn),
    let w' := _on_dom w dom (WriteRaises e) in
    email_data w' = email_data (_on_dom w dom Written)
    /\ email_data w' <> None
    /\ dialogs w'
       = append (dialogs w) ("DOM Error", exn_str e ++ NL ++ NL ++ format_exc e)
    /\ views w' = views w
    /\ chat_display w' = chat_display w.
Proof.
  intros w dom e w'. repeat split.
  - unfold w', _on_dom.
    now rewrite (proj1 (display_links_frame _ _)).
  - apply on_dom_sets_record.
Qed.

(** C3, as stated, fails: with a write that raises, the panels stay
    empty, while a successful write fills them. *)
Lemma persistence_failure_blocks_views :
  views (_on_dom (init_window sample_ptr) (Some sample_dom) (WriteRaises sample_exn))
    = views (init_window sample_ptr)
  /\ views (_on_dom (init_window sample_ptr) (Some sample_dom) (WriteRaises sample_exn))
    <> views (_on_dom (init_window sample_ptr) (Some sample_dom) Written)
  /\ body_browser (_on_dom (init_window sample_ptr) (Some sample_dom) Written)
    = "You are invited to bid."
  /\ body_browser (_on_dom (init_window sample_ptr) (Some sample_dom)
                     (WriteRaises sample_exn))
    = EmptyString.
Proof.
  repeat split.
  intros H. vm_compute in H. discriminate H.
Qed.

(** C4, as the code has it - an error in the DOM callback is shown in a
    dialog titled DOM Error whose text is the message of the exception, a
    blank line and the whole stack trace; a failure of the chat call is
    shown as the one line made of the error marker and the message of the
    exception. *)
Theorem error_dialog_carries_trace_chat_line_short :
  forall (w : window) (dom : option dom_result) (e : exn),
    dialogs (_on_dom w dom (WriteRaises e))
      = append (dialogs w) ("DOM Error", exn_str e ++ NL ++ NL ++ format_exc e)
    /\ contains (format_exc e) (exn_str e ++ NL ++ NL ++ format_exc e) = true
    /\ contains "Traceback (most recent call last):"
         (exn_str e ++ NL ++ NL ++ format_exc e) = true
    /\ on_done (inl (task (Refuses e))) = Text ("Model: [ERROR] " ++ exn_str e)
    /\ on_done (inr e) = Text ("Model: [ERROR] " ++ exn_str e).
Proof.
  intros w dom e. repeat split.
  - rewrite <- (string_app_nil_r (format_exc e)) at 2.
    rewrite <- (string_app_assoc NL), <- string_app_assoc.
    apply contains_app.
  - unfold format_exc.
    rewrite <- (string_app_assoc NL), <- string_app_assoc.
    apply contains_app.
Qed.

(** C4, as stated, fails: the dialog shown for a failed write holds the
    stack trace. *)
Lemma stack_trace_shown_in_dialog :
  exists text : string,
    dialogs (_on_dom (init_window sample_ptr) (Some sample_dom) (WriteRaises sample_exn))
      = [("DOM Error", text)]
    /\ contains (format_exc sample_exn) text = true
    /\ contains "File combined_viewer.py, line 296, in _on_dom" text = true.
Proof.
  eexists. split; [reflexivity|]. split; vm_compute; reflexivity.
Qed.

(** ** The chat *)

(** With a record in the window the composer agrees with the
    specification's wording, flag by flag. *)
Lemma compose_context_spec (w : window) (d : extraction) :
  email_data w = Some d ->
  _compose_context w
  = Some (spec_compose d (header_check w) (body_check w) (links_check w)).
Proof.
  intros H. unfold _compose_context, spec_compose. rewrite H.
  destruct (header_check w), (body_check w), (links_check w); reflexivity.
Qed.

(** C8 - each enabled section is a labelled block (Header, Body, Links,
    each followed by a line break and the section's content), the blocks
    come in the order header, body, links with one blank line between
    them, and a disabled section contributes nothing; with the three flags
    off the context is the empty string whatever the record holds. *)
Theorem compose_context_labelled_blocks :
  forall w : window,
    (forall d : extraction,
        email_data w = Some d ->
        _compose_context w
        = Some (spec_compose d (header_check w) (body_check w) (links_check w)))
    /\ (header_check w = false -> body_check w = false -> links_check w = false ->
        _compose_context w = Some EmptyString).
Proof.
  intros w. split.
  - intros d. apply compose_context_spec.
  - intros Hh Hb Hl. unfold _compose_context. now rewrite Hh, Hb, Hl.
Qed.

Lemma compose_context_labelled_blocks_witness :
  (exists d : extraction,
      email_data (set_checks false true true sample_window) = Some d
      /\ _compose_context (set_checks false true true sample_window)
         = Some (body_block d ++ NL ++ NL ++ links_block d))
  /\ _compose_context sample_window = Some EmptyString.
Proof.
  split.
  - eexists. split; [reflexivity|].
    exact (proj1 (compose_context_labelled_blocks
                    (set_checks false true true sample_window)) _ eq_refl).
  - exact (proj2 (compose_context_labelled_blocks sample_window)
             eq_refl eq_refl eq_refl).
Defined.

(** The body block of the sample record. *)
Example compose_body_only :
  _compose_context (set_checks false true false sample_window)
  = Some ("Body:" ++ NL ++ "You are invited to bid.").
Proof. vm_compute. reflexivity. Qed.

(** A click with a record and a non-blank input line submits one prompt:
    the context, the preamble and the user's message. *)
Lemma send_dispatches (w : window) (d : extraction) :
  email_data w = Some d ->
  truthy (strip (chat_input w)) = true ->
  _send_to_llm w
  = (chat_append Pending
       (set_chat_input EmptyString
          (chat_append (Text ("You: " ++ strip (chat_input w))) w)),
     Some (spec_compose d (header_check w) (body_check w) (links_check w)
           ++ NL ++ NL ++ PREAMBLE ++ NL ++ "User: " ++ strip (chat_input w))).
Proof.
  intros Hd Hm. unfold _send_to_llm.
  rewrite Hd, Hm, (compose_context_spec w d Hd). reflexivity.
Qed.

(** C10 - a click on Send before any record exists appends the line
    No email data yet. and submits nothing; with a record, a click on an
    empty or all-whitespace input line changes nothing at all: no prompt
    is submitted, and the chat log and the input line stay as they
    were. *)
Theorem send_guards :
  (forall w : window,
      email_data w = None ->
      _send_to_llm w = (chat_append (Text "No email data yet.") w, None))
  /\ (forall (w : window) (d : extraction),
        email_data w = Some d -> all_space (chat_input w) = true ->
        _send_to_llm w = (w, None))
  /\ (forall s : session,
        email_data (win s) = None ->
        handle Click_send s
        = {| win := chat_append (Text "No email data yet.") (win s);
             control_thread := control_thread s;
             queue := queue s; pool := pool s |})
  /\ (forall (s : session) (d : extraction),
        email_data (win s) = Some d -> all_space (chat_input (win s)) = true ->
        handle Click_send s = s).
Proof.
  assert (forall w : window, email_data w = None ->
            _send_to_llm w = (chat_append (Text "No email data yet.") w, None)) as H1.
  { intros w H. unfold _send_to_llm. now rewrite H. }
  assert (forall (w : window) (d : extraction),
            email_data w = Some d -> all_space (chat_input w) = true ->
            _send_to_llm w = (w, None)) as H2.
  { intros w d H Hs. unfold _send_to_llm. rewrite H.
    apply strip_empty_iff in Hs. now rewrite Hs. }
  split; [exact H1|]. split; [exact H2|]. split.
  - intros s H. unfold handle. now rewrite (H1 _ H).
  - intros s d H Hs. unfold handle. rewrite (H2 _ d H Hs). now destruct s.
Qed.

Lemma send_guards_witness :
  _send_to_llm (init_window sample_ptr)
    = (chat_append (Text "No email data yet.") (init_window sample_ptr), None)
  /\ _send_to_llm (set_chat_input "   " sample_window)
    = (set_chat_input "   " sample_window, None).
Proof.
  split.
  - exact (proj1 send_guards (init_window sample_ptr) eq_refl).
  - eapply (proj1 (proj2 send_guards) (set_chat_input "   " sample_window));
      reflexivity.
Defined.

(** ** The session *)

(** While the control thread is inside [fut.result()] of a future that
    is still running, its turns change nothing: no queued event is
    handled. *)
Lemma blocked_control_idles (s : session) (fut : nat) :
  control_thread s = In_result fut -> finished s fut = None ->
  step s Control_runs = s.
Proof.
  intros Hc Hf. unfold step. rewrite Hc. unfold handle. rewrite Hf.
  destruct s; simpl in *. now subst.
Qed.

(** C9 - when the endpoint fails, the text handed back starts with the
    error marker followed by the cause, the chat log gets it as one more
    Model line, and the session goes on: the record is still there, the
    control thread is back in its loop, and the next question is
    submitted like the first. *)
Theorem inference_failure_inline_not_fatal :
  forall (w : window) (d : extraction) (e : exn) (msg2 : string),
    email_data w = Some d ->
    truthy (strip (chat_input w)) = true ->
    truthy (strip msg2) = true ->
    let s0 := {| win := w; control_thread := In_loop;
                 queue := [Click_send]; pool := [] |} in
    let s1 := run [Control_runs; Control_runs; Call_returns 0 (Refuses e);
                   Control_runs; Control_runs] s0 in
    let s2 := run [User_posts (Edit_input msg2); User_posts Click_send;
                   Control_runs; Control_runs] s1 in
    task (Refuses e) = "[ERROR] " ++ exn_str e
    /\ control_thread s1 = In_loop
    /\ queue s1 = []
    /\ pool s1 = [Finished (inl ("[ERROR] " ++ exn_str e))]
    /\ chat_display (win s1)
       = (chat_display w
          ++ [Text ("You: " ++ strip (chat_input w)); Pending;
              Text ("Model: [ERROR] " ++ exn_str e)])%list
    /\ email_data (win s1) = Some d
    /\ (exists prompt2 : string,
          pool s2 = [Finished (inl ("[ERROR] " ++ exn_str e)); Running prompt2])
    /\ chat_display (win s2)
       = (chat_display (win s1) ++ [Text ("You: " ++ strip msg2); Pending])%list.
Proof.
  intros w d e msg2 Hd Hm Hm2 s0 s1 s2.
  assert (s1 = {| win := chat_append (Text ("Model: [ERROR] " ++ exn_str e))
                    (chat_append Pending
                      (set_chat_input EmptyString
                        (chat_append (Text ("You: " ++ strip (chat_input w))) w)));
                  control_thread := In_loop; queue := [];
                  pool := [Finished (inl ("[ERROR] " ++ exn_str e))] |}) as E1.
  { unfold s1, s0, run. cbn [fold_left].
    unfold step at 5. cbn [control_thread queue win pool handle].
    rewrite (send_dispatches w d Hd Hm).
    reflexivity. }
  assert (exists prompt2 : string,
            pool s2 = [Finished (inl ("[ERROR] " ++ exn_str e)); Running prompt2]
            /\ chat_display (win s2)
               = (chat_display (win s1)
                  ++ [Text ("You: " ++ strip msg2); Pending])%list) as E2.
  { unfold s2. rewrite E1. unfold run. cbn [fold_left].
    cbn [step control_thread queue win pool handle append app].
    match goal with
    | |- context [_send_to_llm ?x] => rewrite (send_dispatches x d Hd Hm2)
    end.
    eexists. split; [reflexivity|].
    cbn. unfold append. now rewrite <- !app_assoc. }
  destruct E2 as (prompt2 & Hp2 & Hc2).
  rewrite E1 in Hc2 |- *. cbn [control_thread queue pool win].
  repeat split; try assumption; try reflexivity.
  - cbn. unfold append. now rewrite <- !app_assoc.
  - now exists prompt2.
Qed.

Lemma inference_failure_inline_not_fatal_witness :
  chat_display
    (win (run [Control_runs; Control_runs;
               Call_returns 0 (Refuses sample_transport_exn);
               Control_runs; Control_runs] sample_session))
  = (chat_display sample_window
     ++ [Text "You: When is the bid due?"; Pending;
         Text "Model: [ERROR] Failed to connect to Ollama"])%list.
Proof.
  exact (proj1 (proj2 (proj2 (proj2 (proj2
    (inference_failure_inline_not_fatal sample_window _ sample_transport_exn
       "And who is the contact?" eq_refl eq_refl eq_refl)))))).
Defined.


(** Whatever the window, once a click has submitted a prompt the next
    turn of the control thread enters [fut.result()] of the new future. *)
Lemma on_done_enters_result (w : window) (d : extraction) :
  email_data w = Some d ->
  truthy (strip (chat_input w)) = true ->
  control_thread
    (run [Control_runs; Control_runs]
         {| win := w; control_thread := In_loop;
            queue := [Click_send]; pool := [] |})
  = In_result 0.
Proof.
  intros Hd Hm. unfold run. cbn [fold_left].
  unfold step at 2. cbn [control_thread queue win pool handle].
  rewrite (send_dispatches w d Hd Hm). reflexivity.
Qed.

(** C5, at the failing input - the call to the endpoint does run on the
    pool, but [on_done], started by the zero-delay timer on the control
    thread, calls [fut.result()]: as long as the endpoint has not
    answered, the control thread stays inside that call and handles none
    of the events the user posts meanwhile; it comes back to its loop only
    when the call returns. *)
Theorem control_thread_waits_in_on_done :
  let s2 := run [Control_runs; Control_runs] sample_session in
  control_thread s2 = In_result 0
  /\ (exists prompt : string, pool s2 = [Running prompt])
  /\ run [User_posts (Edit_input "And the address?"); User_posts Click_send;
          Control_runs; Control_runs; Control_runs] s2
     = {| win := win s2; control_thread := In_result 0;
          queue := [Edit_input "And the address?"; Click_send];
          pool := pool s2 |}
  /\ control_thread (run [Call_returns 0 (Reply "Friday noon"); Control_runs] s2)
     = In_loop.
Proof.
  cbv zeta. split; [vm_compute; reflexivity|].
  split; [eexists; vm_compute; reflexivity|].
  split; vm_compute; reflexivity.
Qed.

(* ================================================================= *)
(** * Further properties *)

Import Config Mailbox PageScript Measures Cases.

(** ** Scores *)

Lemma tallies_in_range :
  forallb (fun x => ((-7.0) <=? x)%float && (x <=? 6.1)%float
                    && ((-999.0) <? x)%float && negb (0.3 <? (-999.0))%float)
          tallies = true.
Proof. vm_compute. reflexivity. Qed.

Lemma steps_checked : all_steps_strict = true.
Proof. vm_compute. reflexivity. Qed.

(** With a non-empty href the score is the tally of the link's profile. *)
Lemma score_link_profile (href text : string) (a b n e : nat) :
  truthy href = true -> profile href text = (a, b, n, e) ->
  score_link (Some href) (Some text) = tally a b n e
  /\ a <= 5 /\ b <= 8 /\ n <= 7 /\ e <= 7.
Proof.
  intros Hh Hp. rewrite score_link_spec_score. simpl or_empty.
  unfold spec_score. rewrite Hh. simpl negb. cbv iota.
  rewrite add_times_plus. unfold profile in Hp.
  set (h := lower href) in *. set (t := lower text) in *.
  pose proof (hits_le WHITELIST_DOMAINS h) as Ha.
  pose proof (hits_le INTENT_WORDS t) as Hb.
  pose proof (hits_le HREF_HINTS h) as Hd.
  pose proof (hits_le NEGATIVE_HINTS h) as He.
  simpl List.length in Ha, Hb, Hd, He.
  injection Hp as <- <- <- <-. split; [reflexivity|].
  repeat split; try lia.
  match goal with |- (if ?c then _ else _) + _ <= _ => destruct c end; lia.
Qed.

Lemma profile_total (href text : string) :
  exists a b n e, profile href text = (a, b, n, e).
Proof. unfold profile. now eexists _, _, _, _. Qed.

Lemma score_in_tallies (href text : string) :
  truthy href = true -> In (score_link (Some href) (Some text)) tallies.
Proof.
  intros Hh. destruct (profile_total href text) as (a & b & n & e & Hp).
  destruct (score_link_profile href text a b n e Hh Hp) as (-> & Ha & Hb & Hn & He).
  now apply tally_in_tallies.
Qed.

Lemma score_range (href text : string) :
  truthy href = true ->
  ((-7.0) <=? score_link (Some href) (Some text))%float = true
  /\ (score_link (Some href) (Some text) <=? 6.1)%float = true
  /\ ((-999.0) <? score_link (Some href) (Some text))%float = true.
Proof.
  intros Hh.
  pose proof tallies_in_range as R. rewrite forallb_forall in R.
  specialize (R _ (score_in_tallies href text Hh)).
  apply andb_prop in R as [R _]. apply andb_prop in R as [R R3].
  apply andb_prop in R as [R1 R2]. now repeat split.
Qed.

Lemma score_empty_href (href text : string) :
  truthy href = false ->
  score_link (Some href) (Some text) = (-999.0)%float.
Proof.
  intros Hh. rewrite score_link_spec_score. simpl or_empty.
  unfold spec_score. now rewrite Hh.
Qed.

(** X1 - a link with a non-empty href never gets the sentinel: its score
    lies between -7.0 and 6.1, both included. *)
Theorem score_within_bounds :
  forall href text : string,
    truthy href = true ->
    ((-7.0) <=? score_link (Some href) (Some text))%float = true
    /\ (score_link (Some href) (Some text) <=? 6.1)%float = true
    /\ ((-999.0) <? score_link (Some href) (Some text))%float = true.
Proof. intros href text Hh. now apply score_range. Qed.

Lemma score_within_bounds_witness :
  ((-7.0) <=? score_link (Some (l_href link_unsubscribe)) (Some (l_text link_unsubscribe)))%float
  = true.
Proof.
  exact (proj1 (score_within_bounds (l_href link_unsubscribe)
                  (l_text link_unsubscribe) eq_refl)).
Defined.

Lemma step_checked (a b n e : nat) :
  a <= 5 -> b <= 8 -> n <= 7 -> e <= 7 -> steps_strict a b n e = true.
Proof.
  intros Ha Hb Hn He. pose proof steps_checked as C. unfold all_steps_strict in C.
  rewrite forallb_forall in C. specialize (C a ltac:(apply in_seq; lia)).
  rewrite forallb_forall in C. specialize (C b ltac:(apply in_seq; lia)).
  rewrite forallb_forall in C. specialize (C n ltac:(apply in_seq; lia)).
  rewrite forallb_forall in C. exact (C e ltac:(apply in_seq; lia)).
Qed.

(** A sequence of integers that rises at each step rises overall. *)
Lemma rising (f : nat -> Z) (N : nat) :
  (forall k, k < N -> (f k < f (S k))%Z) ->
  forall i j, i <= j -> j <= N ->
    (f i <= f j)%Z /\ (i < j -> (f i < f j)%Z).
Proof.
  intros Hs i j Hij. induction Hij as [|j Hij IH]; intros HN.
  - split; lia.
  - specialize (IH ltac:(lia)). destruct IH as [IH1 IH2].
    specialize (Hs j ltac:(lia)). split; lia.
Qed.

Lemma tally_pos_monotone (a b n e a' b' n' e' : nat) :
  a <= a' -> a' <= 5 -> b <= b' -> b' <= 8 -> n <= n' -> n' <= 7 ->
  e' <= e -> e <= 7 ->
  (score_pos (tally a b n e) <= score_pos (tally a' b' n' e'))%Z
  /\ ((a, b, n, e) <> (a', b', n', e') ->
      (score_pos (tally a b n e) < score_pos (tally a' b' n' e'))%Z).
Proof.
  intros Ha Ha' Hb Hb' Hn Hn' He' He.
  assert (forall x y z k, x <= 5 -> y <= 8 -> z <= 7 -> k <= 7 ->
            attainable (tally x y z k)) as At
    by (intros; now apply tally_attainable).
  pose proof (rising (fun k => score_pos (tally k b n e)) 5) as Ra.
  destruct (Ra) with (i := a) (j := a') as [Ra1 Ra2]; try lia.
  { intros k Hk. pose proof (step_checked k b n e) as S.
    unfold steps_strict in S. rewrite !andb_true_iff in S.
    destruct S as [[[S _] _] _]; try lia.
    rewrite attainable_ltb in S by (apply At; lia). now apply Z.ltb_lt. }
  pose proof (rising (fun k => score_pos (tally a' k n e)) 8) as Rb.
  destruct (Rb) with (i := b) (j := b') as [Rb1 Rb2]; try lia.
  { intros k Hk. pose proof (step_checked a' k n e) as S.
    unfold steps_strict in S. rewrite !andb_true_iff in S.
    destruct S as [[[_ S] _] _]; try lia.
    rewrite attainable_ltb in S by (apply At; lia). now apply Z.ltb_lt. }
  pose proof (rising (fun k => score_pos (tally a' b' k e)) 7) as Rn.
  destruct (Rn) with (i := n) (j := n') as [Rn1 Rn2]; try lia.
  { intros k Hk. pose proof (step_checked a' b' k e) as S.
    unfold steps_strict in S. rewrite !andb_true_iff in S.
    destruct S as [[_ S] _]; try lia.
    rewrite attainable_ltb in S by (apply At; lia). now apply Z.ltb_lt. }
  pose proof (rising (fun k => (- score_pos (tally a' b' n' k))%Z) 7) as Re.
  destruct (Re) with (i := e') (j := e) as [Re1 Re2]; try lia.
  { intros k Hk. pose proof (step_checked a' b' n' k) as S.
    unfold steps_strict in S. rewrite !andb_true_iff in S.
    destruct S as [_ S]; try lia.
    rewrite attainable_ltb in S by (apply At; lia).
    apply Z.ltb_lt in S. lia. }
  split; [lia|]. intros Hne.
  assert (a < a' \/ b < b' \/ n < n' \/ e' < e) as [H|[H|[H|H]]].
  { destruct (Nat.eq_dec a a'), (Nat.eq_dec b b'), (Nat.eq_dec n n'),
      (Nat.eq_dec e e'); subst; try lia. now elim Hne. }
  - specialize (Ra2 H). lia.
  - specialize (Rb2 H). lia.
  - specialize (Rn2 H). lia.
  - specialize (Re2 H). lia.
Qed.

(** X2 - every rule counts, also after rounding: of two links with
    non-empty hrefs, the one with at least as many trusted domains,
    intent phrases and additions of 0.1 and at most as many negative
    hints scores at least as high, and strictly higher as soon as one of
    the four counts differs. *)
Theorem more_hits_never_lower :
  forall (href text href' text' : string) (a b n e a' b' n' e' : nat),
    truthy href = true -> truthy href' = true ->
    profile href text = (a, b, n, e) ->
    profile href' text' = (a', b', n', e') ->
    a <= a' -> b <= b' -> n <= n' -> e' <= e ->
    (score_link (Some href) (Some text) <=? score_link (Some href') (Some text'))%float
    = true
    /\ ((a, b, n, e) <> (a', b', n', e') ->
        (score_link (Some href) (Some text) <? score_link (Some href') (Some text'))%float
        = true).
Proof.
  intros href text href' text' a b n e a' b' n' e' Hh Hh' Hp Hp' Ha Hb Hn He.
  destruct (score_link_profile _ _ _ _ _ _ Hh Hp) as (E & B1 & B2 & B3 & B4).
  destruct (score_link_profile _ _ _ _ _ _ Hh' Hp') as (E' & B1' & B2' & B3' & B4').
  destruct (tally_pos_monotone a b n e a' b' n' e') as [M1 M2]; try lia.
  rewrite attainable_leb, attainable_ltb by apply score_link_attainable.
  rewrite E, E'. split.
  - now apply Z.leb_le.
  - intros Hne. apply Z.ltb_lt. now apply M2.
Qed.

Lemma more_hits_never_lower_witness :
  (score_link (Some "https://planhub.com/unsubscribe") (Some "View Project")
   <? score_link (Some "https://planhub.com/bid") (Some "View Project"))%float
  = true.
Proof.
  refine (proj2 (more_hits_never_lower
            "https://planhub.com/unsubscribe" "View Project"
            "https://planhub.com/bid" "View Project"
            1 2 1 1 1 2 2 0 eq_refl eq_refl eq_refl eq_refl _ _ _ _) _);
    try lia.
  intros H. discriminate H.
Defined.

(** ** Ranking *)


Lemma in_rank_links (ls : list link) (r : scored) :
  In r (rank_links ls) <-> exists l, In l ls /\ r = score_entry l.
Proof.
  split.
  - intros H. apply (Permutation_in _ (rank_links_perm ls)) in H.
    apply in_map_iff in H as (l & <- & Hl). now exists l.
  - intros (l & Hl & ->).
    apply (Permutation_in _ (Permutation_sym (rank_links_perm ls))).
    now apply in_map.
Qed.



Lemma sentinel_below_threshold : (0.3 <? (-999.0))%float = false.
Proof. vm_compute. reflexivity. Qed.

(** X4 - a primary link is chosen exactly when some link of the page
    scores above 0.3; the chosen href is then non-empty, belongs to a link
    of the page scoring above 0.3, and no link of the page scores
    higher. *)
Theorem primary_iff_some_link_qualifies :
  forall (w : window) (text : string) (ls : list link) (io : write_result),
    let w' := _on_dom w (Some {| js_text := text; js_links := ls |}) io in
    (primary_of w' <> None <->
     exists l, In l ls /\ (0.3 <? r_score (score_entry l))%float = true)
    /\ (forall h : string,
          primary_of w' = Some h ->
          truthy h = true
          /\ exists l, In l ls /\ l_href l = h
               /\ (0.3 <? r_score (score_entry l))%float = true
               /\ forall l', In l' ls ->
                    (r_score (score_entry l') <=? r_score (score_entry l))%float
                    = true).
Proof.
  intros w text ls io w'.
  assert (primary_of w'
          = match rank_links ls with
            | top :: _ => if (0.3 <? r_score top)%float then Some (r_href top) else None
            | [] => None
            end) as Hp.
  { unfold w'. now rewrite on_dom_primary. }
  pose proof (rank_links_descending ls) as Hd.
  pose proof (in_rank_links ls) as Hin.
  assert (forall top rest l', rank_links ls = top :: rest -> In l' ls ->
            (r_score (score_entry l') <=? r_score top)%float = true) as Hmax.
  { intros top rest l' Hr Hl'. rewrite Hr in Hd, Hin. unfold descending in Hd.
    inversion Hd as [|? ? _ Hall]; subst.
    destruct (proj2 (Hin (score_entry l')) (ex_intro _ l' (conj Hl' eq_refl)))
      as [Et|Hrest].
    - rewrite Et.
      rewrite attainable_leb by apply score_link_attainable. apply Z.leb_refl.
    - rewrite Forall_forall in Hall. now apply Hall. }
  split; [split|].
  - rewrite Hp. destruct (rank_links ls) as [|top rest] eqn:Hr; [congruence|].
    destruct (0.3 <? r_score top)%float eqn:E; [|congruence]. intros _.
    destruct (proj1 (Hin top) (or_introl eq_refl)) as (l & Hl & ->).
    now exists l.
  - intros (l & Hl & E). rewrite Hp.
    destruct (rank_links ls) as [|top rest] eqn:Hr.
    + destruct (proj2 (Hin (score_entry l)) (ex_intro _ l (conj Hl eq_refl))).
    + specialize (Hmax top rest l eq_refl Hl).
      destruct (proj1 (Hin top) (or_introl eq_refl)) as (lt & _ & ->).
      rewrite attainable_leb in Hmax by apply score_link_attainable.
      rewrite attainable_ltb in E |- *
        by (apply score_link_attainable || apply threshold_attainable).
      apply Z.leb_le in Hmax. apply Z.ltb_lt in E.
      destruct (Z.ltb_spec (score_pos 0.3) (score_pos (r_score (score_entry lt))));
        [discriminate|lia].
  - intros h. rewrite Hp.
    destruct (rank_links ls) as [|top rest] eqn:Hr; [discriminate|].
    destruct (0.3 <? r_score top)%float eqn:E; [|discriminate].
    intros [= <-].
    destruct (proj1 (Hin top) (or_introl eq_refl)) as (l & Hl & ->).
    split.
    + cbn [score_entry r_href r_score] in *.
      destruct (truthy (l_href l)) eqn:T; [reflexivity|].
      rewrite (score_empty_href _ _ T), sentinel_below_threshold in E.
      discriminate.
    + exists l. repeat split; try assumption.
      intros l' Hl'. exact (Hmax _ _ l' eq_refl Hl').
Qed.

Lemma primary_iff_some_link_qualifies_witness :
  primary_of (_on_dom (init_window sample_ptr) (Some sample_dom) Written) <> None.
Proof.
  apply (proj1 (primary_iff_some_link_qualifies
                  (init_window sample_ptr) "You are invited to bid."
                  [link_view; link_unsubscribe] Written)).
  exists link_view. split; [left; reflexivity | vm_compute; reflexivity].
Defined.

(** ** The configuration *)

Lemma get_app (d d' : dict) (key : string) :
  get (d ++ d')%list key
  = match get d key with Some v => Some v | None => get d' key end.
Proof.
  induction d as [|[k v] d IH]; simpl; [reflexivity|].
  now destruct (String.eqb k key).
Qed.

Lemma get_setdefault (d : dict) (k key : string) (v : pyval) :
  get (setdefault d k v) key
  = match get d key with
    | Some x => Some x
    | None => if String.eqb k key then Some v else None
    end.
Proof.
  unfold setdefault. destruct (get d k) eqn:E.
  - destruct (get d key) eqn:E'; [reflexivity|].
    destruct (String.eqb_spec k key); [congruence|reflexivity].
  - rewrite get_app. simpl. reflexivity.
Qed.

Lemma setdefault_present (d : dict) (k : string) (v x : pyval) :
  get d k = Some x -> setdefault d k v = d.
Proof. intros H. unfold setdefault. now rewrite H. Qed.

Lemma load_config_get (d : dict) (key : string) :
  get (load_config d) key
  = match get d key with Some v => Some v | None => get DEFAULTS key end.
Proof.
  unfold load_config. rewrite !get_setdefault.
  destruct (get d key); [reflexivity|].
  unfold DEFAULTS. cbn [get].
  repeat match goal with
         | |- context [String.eqb ?a key] => destruct (String.eqb a key)
         end; reflexivity.
Qed.

Lemma setdefault_extends (d : dict) (k : string) (v : pyval) :
  exists added, setdefault d k v = (d ++ added)%list.
Proof.
  unfold setdefault. destruct (get d k).
  - exists []. now rewrite app_nil_r.
  - now exists [(k, v)].
Qed.

(** X5 - [load_config] only fills in what the file leaves out: every key
    of the file keeps its value (a null included), each of the six known
    keys the file lacks gets its default, the entries of the file stay in
    front and in order, and loading a loaded configuration changes
    nothing. *)
Theorem load_config_fills_missing_keys :
  forall d : dict,
    (forall key : string,
        get (load_config d) key
        = match get d key with Some v => Some v | None => get DEFAULTS key end)
    /\ (exists added : dict, load_config d = (d ++ added)%list)
    /\ load_config (load_config d) = load_config d.
Proof.
  intros d. split; [apply load_config_get|]. split.
  - unfold load_config.
    repeat match goal with
           | |- context [setdefault ?c ?k ?v] =>
               let t := fresh "t" in let E := fresh "E" in
               destruct (setdefault_extends c k v) as [t E]; rewrite E; clear E
           end.
    rewrite <- !app_assoc. now eexists.
  - set (c := load_config d).
    assert (forall key, In key (map fst DEFAULTS) -> exists x, get c key = Some x) as H.
    { intros key Hk. unfold c. rewrite load_config_get.
      destruct (get d key); [now eexists|].
      simpl in Hk.
      repeat (destruct Hk as [<-|Hk]; [now eexists|]). contradiction. }
    unfold load_config.
    repeat match goal with
           | |- context [setdefault c ?k ?v] =>
               let x := fresh "x" in let E := fresh "E" in
               destruct (H k ltac:(simpl; tauto)) as [x E];
               rewrite (setdefault_present c k v x E); clear x E
           end.
    reflexivity.
Qed.

(** ** The sender rule *)

Lemma lower_each_strings (ss : list string) :
  lower_each (map PStr ss) = Returns (map lower ss).
Proof.
  induction ss as [|s ss IH]; simpl; [reflexivity|]. now rewrite IH.
Qed.

Lemma contains_in_empty (sub : string) :
  truthy sub = true -> contains sub EmptyString = false.
Proof. now destruct sub. Qed.

(** The rule on a configuration whose two keys have the expected types. *)
Lemma sender_matches_typed (smtp : option string) (cfg : dict)
    (ss : list string) (dm : string) :
  get cfg "senders" = Some (PList (map PStr ss)) ->
  get cfg "sender_domain" = Some (PStr dm) ->
  sender_matches smtp cfg
  = Returns (mem (lower (or_empty smtp)) (map lower ss)
             || (truthy dm && contains (lower dm) (lower (or_empty smtp)))).
Proof.
  intros Hs Hd. unfold sender_matches. rewrite Hs, Hd.
  cbn [iterate]. rewrite lower_each_strings. cbn [is_true].
  assert (forall X Y : bool,
            (if X then Returns true else Returns Y) = Returns (X || Y)) as Hor
    by (now intros [] []).
  destruct (truthy dm) eqn:T.
  - rewrite lower_truthy, T. rewrite <- Hor. f_equal.
    now destruct (map lower ss).
  - cbn [lower truthy andb]. rewrite <- Hor.
    now destruct (map lower ss).
Qed.

(** X6 - on a configuration with a list of addresses and a domain, the
    rule never raises and holds exactly when the lower-cased address is
    one of the lower-cased listed addresses or the lower-cased, non-empty
    domain occurs in it; a non-empty list of addresses does not switch
    the domain rule off. *)
Theorem sender_rule_is_list_or_domain :
  forall (smtp : option string) (cfg : dict) (ss : list string) (dm : string),
    get cfg "senders" = Some (PList (map PStr ss)) ->
    get cfg "sender_domain" = Some (PStr dm) ->
    sender_matches smtp cfg
    = Returns (mem (lower (or_empty smtp)) (map lower ss)
               || (truthy dm && contains (lower dm) (lower (or_empty smtp)))).
Proof. exact sender_matches_typed. Qed.

Lemma sender_rule_is_list_or_domain_witness :
  sender_matches (Some "Invites@PlanHub.com") (load_config file_config)
  = Returns true.
Proof.
  exact (sender_rule_is_list_or_domain (Some "Invites@PlanHub.com")
           (load_config file_config) ["Bids@Example.com"] "planhub.com"
           eq_refl eq_refl).
Defined.

(** X7 - without the two keys: on the bare dict nothing matches, and
    after [load_config] exactly the addresses that contain planhub.com,
    in any case, match. *)
Theorem sender_rule_without_keys :
  forall (smtp : option string) (d : dict),
    get d "senders" = None -> get d "sender_domain" = None ->
    sender_matches smtp d = Returns false
    /\ sender_matches smtp (load_config d)
       = Returns (contains "planhub.com" (lower (or_empty smtp))).
Proof.
  intros smtp d Hs Hd. split.
  - unfold sender_matches. now rewrite Hs, Hd.
  - rewrite (sender_matches_typed smtp (load_config d) [] "planhub.com").
    + reflexivity.
    + now rewrite load_config_get, Hs.
    + now rewrite load_config_get, Hd.
Qed.

Lemma sender_rule_without_keys_witness :
  sender_matches (Some "Invites@PlanHub.com") (load_config []) = Returns true.
Proof.
  exact (proj2 (sender_rule_without_keys (Some "Invites@PlanHub.com") []
                  eq_refl eq_refl)).
Defined.

(** X8 - a null under the key senders survives [load_config], and the
    rule then raises a TypeError for every address; a null or empty
    domain does no harm: the domain rule is off and only the listed
    addresses match. *)
Theorem sender_rule_null_entries :
  forall (smtp : option string) (d : dict),
    (get d "senders" = Some PNone ->
     sender_matches smtp (load_config d) = Raises TypeError)
    /\ (forall (ss : list string) (v : pyval),
          get d "senders" = Some (PList (map PStr ss)) ->
          get d "sender_domain" = Some v -> is_true v = false ->
          sender_matches smtp (load_config d)
          = Returns (mem (lower (or_empty smtp)) (map lower ss))).
Proof.
  intros smtp d. split.
  - intros Hs. unfold sender_matches.
    now rewrite load_config_get, Hs.
  - intros ss v Hs Hd Hv. unfold sender_matches.
    rewrite !load_config_get, Hs, Hd, Hv.
    cbn [iterate]. rewrite lower_each_strings.
    cbn [lower truthy andb].
    destruct (map lower ss) as [|x l]; [reflexivity|].
    now destruct (mem (lower (or_empty smtp)) (x :: l)).
Qed.

Lemma sender_rule_null_entries_witness :
  sender_matches (Some "invites@planhub.com")
    (load_config [("senders", PNone)]) = Raises TypeError
  /\ sender_matches (Some "invites@planhub.com")
       (load_config [("senders", PList (map PStr ["bids@example.com"]));
                     ("sender_domain", PNone)]) = Returns false.
Proof.
  split.
  - exact (proj1 (sender_rule_null_entries (Some "invites@planhub.com")
                    [("senders", PNone)]) eq_refl).
  - exact (proj2 (sender_rule_null_entries (Some "invites@planhub.com")
                    [("senders", PList (map PStr ["bids@example.com"]));
                     ("sender_domain", PNone)])
             ["bids@example.com"] PNone eq_refl eq_refl eq_refl).
Defined.

(** ** The mailbox *)

(** X9 - for a name that is a string, [find_store] never raises and
    returns the first folder whose name equals the requested one up to
    case and surrounding white space, and [None] exactly when no folder
    does; the case and the surrounding white space of the requested name
    do not matter. *)
Theorem find_store_first_agreeing :
  forall (folders : list store) (d : string),
    (forall f : store,
        find_store folders (PStr d) = Returns (Some f) <->
        exists before after,
          folders = (before ++ f :: after)%list
          /\ String.eqb (lower (strip (Name f))) (lower (strip d)) = true
          /\ Forall (fun g => String.eqb (lower (strip (Name g))) (lower (strip d))
                              = false) before)
    /\ (find_store folders (PStr d) = Returns None <->
        Forall (fun g => String.eqb (lower (strip (Name g))) (lower (strip d)) = false)
               folders)
    /\ (forall d' : string,
          lower (strip d') = lower (strip d) ->
          find_store folders (PStr d') = find_store folders (PStr d)).
Proof.
  intros folders d. split; [|split].
  - induction folders as [|g folders IH]; intros f; cbn [find_store].
    + split; [discriminate|]. intros (before & after & E & _).
      now destruct before.
    + destruct (String.eqb (lower (strip (Name g))) (lower (strip d))) eqn:Eg.
      * split.
        -- intros [= <-]. exists [], folders. repeat split; [exact Eg|constructor].
        -- intros (before & after & E & Ef & Hb).
           destruct before as [|b before]; simpl in E; injection E as -> ->;
             [reflexivity|].
           inversion Hb; subst. congruence.
      * rewrite IH. split.
        -- intros (before & after & -> & Ef & Hb).
           exists (g :: before), after. repeat split; [exact Ef|now constructor].
        -- intros (before & after & E & Ef & Hb).
           destruct before as [|b before]; simpl in E; injection E as -> ->;
             [congruence|].
           inversion Hb; subst. now exists before, after.
  - induction folders as [|g folders IH]; cbn [find_store].
    + split; [constructor|reflexivity].
    + destruct (String.eqb (lower (strip (Name g))) (lower (strip d))) eqn:Eg.
      * split; [discriminate|]. intros H. inversion H; subst. congruence.
      * rewrite IH. split; [now constructor|]. intros H. now inversion H.
  - intros d' E. induction folders as [|g folders IH]; cbn [find_store];
      [reflexivity|].
    now rewrite E, IH.
Qed.

Lemma find_store_first_agreeing_witness :
  find_store sample_folders (PStr "ESTIMATING")
  = find_store sample_folders (PStr "Estimating").
Proof.
  exact (proj2 (proj2 (find_store_first_agreeing sample_folders "Estimating"))
           "ESTIMATING" eq_refl).
Defined.

Lemma sender_matches_lower (s : string) (cfg : dict) :
  sender_matches (Some (lower s)) cfg = sender_matches (Some s) cfg.
Proof. unfold sender_matches. simpl or_empty. now rewrite lower_idem. Qed.

Lemma find_store_some_name (folders : list store) (acc : pyval) (st : store) :
  find_store folders acc = Returns (Some st) -> exists a, acc = PStr a.
Proof.
  destruct folders as [|f folders]; [discriminate|].
  cbn [find_store]. destruct acc; try discriminate. intros _. now eexists.
Qed.

Lemma first_matching_returns (cfg : dict) (a : string) (items : list mail_item)
    (p : pointer) (html : string) :
  first_matching cfg a items = Returns (p, html) ->
  exists before itm after,
    items = (before ++ itm :: after)%list
    /\ Forall (fun i => sender_matches (Some (sender_address i)) cfg = Returns false)
              before
    /\ sender_matches (Some (sender_address itm)) cfg = Returns true
    /\ p = {| account := a; mailbox := "Inbox"; message_id := EntryID itm;
              subject := or_empty (Subject itm);
              from := lower (sender_address itm) |}
    /\ html = item_html itm.
Proof.
  induction items as [|i items IH]; cbn [first_matching]; [discriminate|].
  destruct (sender_matches (Some (sender_address i)) cfg) as [[|]|e] eqn:E;
    [| |discriminate].
  - intros [= <- <-]. exists [], i, items. now repeat split.
  - intros H. destruct (IH H) as (before & itm & after & -> & Hb & Hm & Hp & Hh).
    exists (i :: before), itm, after. repeat split; try assumption.
    now constructor.
Qed.

(** X10 - what [get_newest_matching_email_html] returns is built from the
    first item of the store's Inbox, in the order the sorted collection
    hands the items out, whose address passes the sender rule: every item
    before it fails the rule, the pointer names the configured account
    and the Inbox, carries the item's id and subject and the lower-cased
    address, which passes the rule itself, and the content is the HTML
    body or, where that is empty, the plain body. *)
Theorem newest_matching_is_first_match :
  forall (cfg : dict) (folders : list store) (p : pointer) (html : string),
    get_newest_matching_email_html cfg folders = Returns (p, html) ->
    exists (a : string) (st : store) (before : list mail_item)
           (itm : mail_item) (after : list mail_item),
      get cfg "account" = Some (PStr a)
      /\ find_store folders (PStr a) = Returns (Some st)
      /\ Inbox st = Some (before ++ itm :: after)%list
      /\ Forall (fun i => sender_matches (Some (sender_address i)) cfg
                          = Returns false) before
      /\ sender_matches (Some (sender_address itm)) cfg = Returns true
      /\ p = {| account := a; mailbox := "Inbox"; message_id := EntryID itm;
                subject := or_empty (Subject itm);
                from := lower (sender_address itm) |}
      /\ html = item_html itm
      /\ sender_matches (Some (from p)) cfg = Returns true
      /\ lower (from p) = from p.
Proof.
  intros cfg folders p html. unfold get_newest_matching_email_html.
  destruct (get cfg "account") as [acc|] eqn:Ea; [|discriminate].
  destruct (find_store folders acc) as [[st|]|e] eqn:Ef; try discriminate.
  destruct (find_store_some_name _ _ _ Ef) as [a ->].
  destruct (Inbox st) as [items|] eqn:Ei; [|discriminate].
  intros H. apply first_matching_returns in H
    as (before & itm & after & -> & Hb & Hm & -> & ->).
  exists a, st, before, itm, after. cbn [from].
  repeat split; try assumption.
  - now rewrite sender_matches_lower.
  - apply lower_idem.
Qed.

Lemma newest_matching_is_first_match_witness :
  exists (a : string) (st : store) (before : list mail_item)
         (itm : mail_item) (after : list mail_item),
    get (load_config file_config) "account" = Some (PStr a)
    /\ find_store sample_folders (PStr a) = Returns (Some st)
    /\ Inbox st = Some (before ++ itm :: after)%list
    /\ Forall (fun i => sender_matches (Some (sender_address i))
                          (load_config file_config) = Returns false) before
    /\ sender_matches (Some (sender_address itm)) (load_config file_config)
       = Returns true
    /\ {| account := "Estimating"; mailbox := "Inbox"; message_id := Some "0002";
          subject := "Invitation to bid"; from := "invites@planhub.com" |}
       = {| account := a; mailbox := "Inbox"; message_id := EntryID itm;
            subject := or_empty (Subject itm);
            from := lower (sender_address itm) |}
    /\ "You are invited to bid." = item_html itm
    /\ sender_matches (Some "invites@planhub.com") (load_config file_config)
       = Returns true
    /\ lower "invites@planhub.com" = "invites@planhub.com".
Proof.
  exact (newest_matching_is_first_match (load_config file_config) sample_folders
           {| account := "Estimating"; mailbox := "Inbox"; message_id := Some "0002";
              subject := "Invitation to bid"; from := "invites@planhub.com" |}
           "You are invited to bid." eq_refl).
Defined.

Lemma first_matching_none (cfg : dict) (a : string) (items : list mail_item) :
  Forall (fun i => sender_matches (Some (sender_address i)) cfg = Returns false)
         items ->
  first_matching cfg a items = Raises NoMatchingEmail.
Proof.
  induction 1 as [|i items Hi _ IH]; cbn [first_matching]; [reflexivity|].
  now rewrite Hi.
Qed.

Lemma lower_each_error (items : list pyval) (e : error) :
  lower_each items = Raises e -> e = AttributeError.
Proof.
  induction items as [|v items IH]; cbn [lower_each]; [discriminate|].
  destruct v; try (now intros [= <-]).
  destruct (lower_each items); [discriminate|].
  intros [= <-]. now apply IH.
Qed.

Lemma sender_matches_error (smtp : option string) (cfg : dict) (e : error) :
  sender_matches smtp cfg = Raises e -> e = TypeError \/ e = AttributeError.
Proof.
  unfold sender_matches.
  destruct (iterate _) as [items|e1] eqn:Ei.
  - destruct (lower_each items) as [allow|e2] eqn:El.
    + match goal with
      | |- context [match ?v with PStr _ => _ | _ => _ end] =>
          destruct v; try (intros [= <-]; now right)
      end.
      match goal with
      | |- context [if ?c then _ else _] => destruct c; discriminate
      end.
    + intros [= <-]. right. exact (lower_each_error _ _ El).
  - intros [= <-]. left. revert Ei. unfold iterate.
    match goal with
    | |- context [match ?v with PList _ => _ | _ => _ end] =>
        destruct v; try discriminate; now intros [= <-]
    end.
Qed.

Lemma find_store_error (folders : list store) (acc : pyval) (e : error) :
  find_store folders acc = Raises e -> e = AttributeError.
Proof.
  induction folders as [|f folders IH]; cbn [find_store]; [discriminate|].
  destruct acc; try (now intros [= <-]).
  destruct (String.eqb _ _); [discriminate|exact IH].
Qed.

Lemma first_matching_error (cfg : dict) (a : string) (items : list mail_item)
    (e : error) :
  first_matching cfg a items = Raises e ->
  e = NoMatchingEmail \/ e = TypeError \/ e = AttributeError.
Proof.
  induction items as [|i items IH]; cbn [first_matching].
  - intros [= <-]. now left.
  - destruct (sender_matches (Some (sender_address i)) cfg) as [[|]|e1] eqn:E.
    + discriminate.
    + exact IH.
    + intros [= <-]. right. exact (sender_matches_error _ _ _ E).
Qed.

(** X11 - how the lookup fails: on a loaded configuration it never
    raises a KeyError; without folders the store is reported missing
    whatever the account is; and where the store is found and no item of
    its Inbox passes the sender rule, an empty Inbox included, the
    failure is that no matching email was found. *)
Theorem mailbox_lookup_failures :
  forall (cfg : dict) (folders : list store),
    (forall (d : dict) (key : string),
        get_newest_matching_email_html (load_config d) folders
        <> Raises (KeyError key))
    /\ (forall acc : pyval,
          get cfg "account" = Some acc ->
          get_newest_matching_email_html cfg [] = Raises StoreNotFound)
    /\ (forall (a : string) (st : store) (items : list mail_item),
          get cfg "account" = Some (PStr a) ->
          find_store folders (PStr a) = Returns (Some st) ->
          Inbox st = Some items ->
          Forall (fun i => sender_matches (Some (sender_address i)) cfg
                           = Returns false) items ->
          get_newest_matching_email_html cfg folders = Raises NoMatchingEmail).
Proof.
  intros cfg folders. split; [|split].
  - intros d key. unfold get_newest_matching_email_html.
    rewrite load_config_get.
    assert (exists acc, match get d "account" with
                        | Some v => Some v
                        | None => get DEFAULTS "account"
                        end = Some acc) as [acc ->]
      by (destruct (get d "account"); now eexists).
    destruct (find_store folders acc) as [[st|]|e] eqn:Ef.
    + destruct (Inbox st) as [items|]; [|discriminate].
      destruct acc; try discriminate.
      intros H. apply first_matching_error in H as [H|[H|H]]; discriminate H.
    + discriminate.
    + intros [= ->]. apply find_store_error in Ef. discriminate Ef.
  - intros acc Ha. unfold get_newest_matching_email_html. now rewrite Ha.
  - intros a st items Ha Hf Hi Hall. unfold get_newest_matching_email_html.
    rewrite Ha, Hf, Hi. now apply first_matching_none.
Qed.

Lemma mailbox_lookup_failures_witness :
  get_newest_matching_email_html (load_config file_config) [] = Raises StoreNotFound
  /\ get_newest_matching_email_html (load_config file_config)
       [ {| Name := "Estimating"; Inbox := Some [item_newsletter] |} ]
     = Raises NoMatchingEmail.
Proof.
  split.
  - exact (proj1 (proj2 (mailbox_lookup_failures (load_config file_config) []))
             (PStr "Estimating") eq_refl).
  - refine (proj2 (proj2 (mailbox_lookup_failures (load_config file_config)
             [ {| Name := "Estimating"; Inbox := Some [item_newsletter] |} ]))
             "Estimating" {| Name := "Estimating"; Inbox := Some [item_newsletter] |}
             [item_newsletter] eq_refl eq_refl eq_refl _).
    constructor; [reflexivity|constructor].
Defined.

(** ** The page script *)

Lemma primary_comes_from_a_link (w : window) (text : string) (ls : list link)
    (io : write_result) (h : string) :
  primary_of (_on_dom w (Some {| js_text := text; js_links := ls |}) io) = Some h ->
  exists l, In l ls /\ l_href l = h.
Proof.
  rewrite on_dom_primary. cbn [js_links].
  destruct (rank_links ls) as [|top rest] eqn:Hr; [discriminate|].
  destruct (0.3 <? r_score top)%float; [|discriminate]. intros [= <-].
  destruct (proj1 (in_rank_links ls top)) as (l & Hl & ->).
  { rewrite Hr. now left. }
  now exists l.
Qed.

(** X12 - the page script hands over exactly the visible anchors with a
    non-empty href that is neither a mailto: nor a tel: address, in page
    order and each with its trimmed text, and the text of the body: an
    anchor is visible when it is not undisplayed, hidden or fully
    transparent and its box has a positive width and height.  So none of
    the links is ranked with the sentinel, and the primary link is never a
    mailto: or tel: address. *)
Theorem page_links_are_navigable :
  forall (anchors : list anchor) (body_text : option string)
         (w : window) (io : write_result),
    let dom := extract anchors body_text in
    js_text dom = or_empty body_text
    /\ Forall (fun l =>
              truthy (l_href l) = true
              /\ prefix "mailto:" (l_href l) = false
              /\ prefix "tel:" (l_href l) = false
              /\ exists a, In a anchors /\ isVisible a = true
                   /\ l_href l = a_href a /\ l_text l = trim (a_innerText a))
           (js_links dom)
    /\ (forall a : anchor,
          In a anchors -> truthy (a_href a) = true ->
          prefix "mailto:" (a_href a) = false ->
          prefix "tel:" (a_href a) = false -> isVisible a = true ->
          In {| l_text := trim (a_innerText a); l_href := a_href a |}
             (js_links dom))
    /\ (forall before after : list anchor,
          anchors = (before ++ after)%list ->
          js_links dom
          = (js_links (extract before body_text)
             ++ js_links (extract after body_text))%list)
    /\ (forall a : anchor,
          js_links (extract [a] body_text)
          = if truthy (a_href a) && negb (prefix "mailto:" (a_href a))
               && negb (prefix "tel:" (a_href a)) && isVisible a
            then [ {| l_text := trim (a_innerText a); l_href := a_href a |} ]
            else [])
    /\ (forall a : anchor,
          isVisible a = true <->
          a_display a <> "none" /\ a_visibility a <> "hidden"
          /\ (a_opacity a =? 0)%float = false
          /\ (0 <? a_width a)%float = true /\ (0 <? a_height a)%float = true)
    /\ Forall (fun r => (r_score r =? (-999.0))%float = false)
              (rank_links (js_links dom))
    /\ (forall h : string,
          primary_of (_on_dom w (Some dom) io) = Some h ->
          prefix "mailto:" h = false /\ prefix "tel:" h = false).
Proof.
  intros anchors body_text w io dom.
  assert (Forall (fun l =>
              truthy (l_href l) = true
              /\ prefix "mailto:" (l_href l) = false
              /\ prefix "tel:" (l_href l) = false
              /\ exists a, In a anchors /\ isVisible a = true
                   /\ l_href l = a_href a /\ l_text l = trim (a_innerText a))
           (js_links dom)) as Hl.
  { apply Forall_forall. intros l Hin. unfold dom, extract in Hin.
    cbn [js_links] in Hin. apply in_map_iff in Hin as (a & <- & Ha).
    apply filter_In in Ha as [Ha Hc]. cbn [l_href l_text].
    rewrite !andb_true_iff, !negb_true_iff in Hc.
    destruct Hc as [[[H1 H2] H3] H4]. repeat split; try assumption.
    now exists a. }
  split; [reflexivity|]. split; [exact Hl|]. split.
  { intros a Ha T M P V. unfold dom, extract. cbn [js_links].
    apply (in_map (fun a0 => {| l_text := trim (a_innerText a0);
                                l_href := a_href a0 |})).
    apply filter_In. split; [exact Ha|]. now rewrite T, M, P, V. }
  split.
  { intros before after ->. unfold dom, extract. cbn [js_links].
    now rewrite filter_app, map_app. }
  split.
  { intros a. unfold extract. cbn [js_links filter].
    now destruct (truthy (a_href a) && negb (prefix "mailto:" (a_href a))
                  && negb (prefix "tel:" (a_href a)) && isVisible a). }
  split.
  { intros a. unfold isVisible.
    destruct (String.eqb_spec (a_display a) "none") as [D|D];
      destruct (String.eqb_spec (a_visibility a) "hidden") as [V|V];
      destruct (a_opacity a =? 0)%float; cbn [orb];
      try (split; [discriminate | intros (H1 & H2 & H3 & _); congruence]).
    rewrite andb_true_iff. split.
    - intros [W H]. now repeat split.
    - intros (_ & _ & _ & W & H). now split. }
  split.
  - apply Forall_forall. intros r Hr.
    apply in_rank_links in Hr as (l & Hin & ->).
    rewrite Forall_forall in Hl. destruct (Hl l Hin) as (T & _).
    cbn [score_entry r_score].
    destruct (score_range (l_href l) (l_text l) T) as (_ & _ & Hlt).
    rewrite attainable_ltb in Hlt
      by (apply score_link_attainable || apply sentinel_attainable).
    rewrite attainable_eqb
      by (apply score_link_attainable || apply sentinel_attainable).
    apply Z.ltb_lt in Hlt. apply Z.eqb_neq. lia.
  - intros h Hp. unfold dom, extract in Hp.
    apply primary_comes_from_a_link in Hp as (l & Hin & <-).
    rewrite Forall_forall in Hl. now destruct (Hl l Hin) as (_ & M & T & _).
Qed.

(** The script on a page with a portal link, a mail link and a hidden
    tracking link. *)
Example page_script_sample :
  js_links (extract [anchor_mail; anchor_hidden; anchor_portal] None)
  = [ {| l_text := "View Project"; l_href := "https://planhub.com/bid/1234/view" |} ].
Proof. vm_compute. reflexivity. Qed.

(** ** The panels *)

Lemma display_links_items (ls : list link) (w : window) :
  links_list (_display_links ls w) = map item_of ls.
Proof.
  unfold _display_links, for_each.
  assert (forall w0, links_list
            (fold_left (fun w1 l =>
               let text := l_text l in
               let href := l_href l in
               let long := negb (String.length href <=? 100) in
               let ui_href := if long then substring 0 100 href else href in
               set_links_list
                 (append (links_list w1)
                    {| shown := text ++ " -> " ++ ui_href;
                       cut := long; tooltip := href |}) w1) ls w0)
          = (links_list w0 ++ map item_of ls)%list) as H.
  { induction ls as [|l ls IH]; intros w0; simpl fold_left.
    - simpl. now rewrite app_nil_r.
    - rewrite IH. cbn [links_list set_links_list]. unfold append.
      rewrite <- app_assoc. reflexivity. }
  now rewrite H.
Qed.

Lemma display_links_rest (ls : list link) (w : window) :
  let w' := _display_links ls w in
  ptr w' = ptr w /\ disk w' = disk w /\ header_check w' = header_check w
  /\ body_check w' = body_check w /\ links_check w' = links_check w.
Proof.
  unfold _display_links, for_each.
  apply (fold_left_inv (fun w' =>
    ptr w' = ptr w /\ disk w' = disk w /\ header_check w' = header_check w
    /\ body_check w' = body_check w /\ links_check w' = links_check w)).
  - now repeat split.
  - intros s x H. exact H.
Qed.

Lemma substring_length (n : nat) (s : string) :
  String.length (substring 0 n s) <= n.
Proof.
  revert s. induction n as [|n IH]; intros [|c s]; simpl; try lia.
  specialize (IH s). lia.
Qed.

Lemma substring_prefix (n : nat) (s : string) :
  prefix (substring 0 n s) s = true.
Proof.
  revert s. induction n as [|n IH]; intros [|c s]; simpl; try reflexivity.
  destruct (ascii_dec c c) as [_|N]; [apply IH|now elim N].
Qed.

Lemma substring_length_exact (n : nat) (s : string) :
  n <= String.length s -> String.length (substring 0 n s) = n.
Proof.
  revert s. induction n as [|n IH]; intros [|c s]; simpl; intros H;
    try reflexivity; try lia.
  rewrite IH; [reflexivity|lia].
Qed.

(** X13 - after a successful callback the links list has one item per
    link of the page, in page order; the tooltip is always the whole
    href; the label is the text, an arrow and the href, where an href of
    more than 100 characters is replaced by its first 100 characters,
    exactly 100 of them, and the item is marked as cut. *)
Theorem links_list_shows_every_link :
  forall (w : window) (text : string) (ls : list link),
    let w' := _on_dom w (Some {| js_text := text; js_links := ls |}) Written in
    map tooltip (links_list w') = map l_href ls
    /\ Forall2 (fun l it =>
                  tooltip it = l_href l
                  /\ cut it = negb (String.length (l_href l) <=? 100)
                  /\ exists u : string,
                       shown it = l_text l ++ " -> " ++ u
                       /\ String.length u <= 100
                       /\ prefix u (l_href l) = true
                       /\ (cut it = false -> u = l_href l)
                       /\ (cut it = true ->
                           u = substring 0 100 (l_href l)
                           /\ String.length u = 100))
               ls (links_list w').
Proof.
  intros w text ls w'.
  assert (links_list w' = map item_of ls) as E.
  { unfold w', _on_dom. now rewrite display_links_items. }
  rewrite E. split.
  - rewrite map_map. reflexivity.
  - clear E. induction ls as [|l ls IH]; simpl; constructor; [|exact IH].
    split; [reflexivity|]. split; [reflexivity|].
    unfold item_of. cbn [shown cut].
    destruct (String.length (l_href l) <=? 100) eqn:L; simpl negb; cbv iota.
    + exists (l_href l). repeat split; try discriminate.
      * now apply Nat.leb_le.
      * rewrite <- (string_app_nil_r (l_href l)) at 2. apply prefix_app.
    + exists (substring 0 100 (l_href l)). apply Nat.leb_gt in L.
      repeat split; try discriminate.
      * apply substring_length.
      * apply substring_prefix.
      * apply substring_length_exact. lia.
Qed.

(** A long href is cut in the label and kept whole in the tooltip. *)
Example long_href_cut :
  map cut (links_list (_display_links [link_view; long_link] (init_window sample_ptr)))
    = [false; true]
  /\ map tooltip (links_list (_display_links [link_view; long_link]
                                (init_window sample_ptr)))
    = [l_href link_view; l_href long_link].
Proof. split; vm_compute; reflexivity. Qed.

Lemma primary_is_truthy (w : window) (dom : option dom_result)
    (io : write_result) (h : string) :
  primary_of (_on_dom w dom io) = Some h -> truthy h = true.
Proof.
  rewrite on_dom_primary.
  generalize (match dom with Some d => js_links d | None => [] end). intros ls.
  destruct (rank_links ls) as [|top rest] eqn:Hr; [discriminate|].
  destruct (0.3 <? r_score top)%float eqn:E; [|discriminate]. intros [= <-].
  destruct (proj1 (in_rank_links ls top)) as (l & Hl & ->).
  { rewrite Hr. now left. }
  cbn [score_entry r_href r_score] in *.
  destruct (truthy (l_href l)) eqn:T; [reflexivity|].
  rewrite (score_empty_href _ _ T), sentinel_below_threshold in E. discriminate.
Qed.

(** X14 - after a successful callback the details panel holds the five
    pointer fields and, exactly when a primary link was chosen, one more
    label with that link: the guard on the primary link never hides a
    chosen one. *)
Theorem details_show_pointer_and_primary :
  forall (w : window) (dom : option dom_result),
    let w' := _on_dom w dom Written in
    details w'
    = app (pointer_labels (ptr w))
          match primary_of w' with
          | Some h => cons ("Primary Portal: " ++ h) nil
          | None => nil
          end
    /\ List.length (details w')
       = match primary_of w' with Some _ => 6 | None => 5 end.
Proof.
  intros w dom w'.
  set (_onward := fun primary : option string =>
         if truthy (or_empty primary)
         then append (pointer_labels (ptr w)) ("Primary Portal: " ++ or_empty primary)
         else pointer_labels (ptr w)).
  assert (details w'
          = app (pointer_labels (ptr w))
                match primary_of w' with
                | Some h => cons ("Primary Portal: " ++ h) nil
                | None => nil
                end) as E.
  { pose proof (primary_is_truthy w dom Written) as T.
    assert (details w'
            = _onward (primary_of w')) as D.
    { unfold w', primary_of, _on_dom.
      rewrite (proj1 (display_links_frame _ _)).
      rewrite (proj1 (proj2 (display_links_frame _ _))).
      reflexivity. }
    rewrite D. fold w' in T. unfold _onward.
    destruct (primary_of w') as [h|].
    - cbn [or_empty]. rewrite (T h eq_refl). unfold append. reflexivity.
    - cbn [or_empty truthy]. now rewrite app_nil_r. }
  split; [exact E|]. rewrite E, length_app.
  destruct (primary_of w'); reflexivity.
Qed.

(** X15 - a callback replaces the record, the file and the three panels
    wholesale: what they hold afterwards is fixed by the pointer and the
    payload, whatever the window held before, and the chat log, the input
    line, the dialogs and the three boxes are left alone. *)
Theorem callback_replaces_wholesale :
  forall (w1 w2 : window) (dom : option dom_result),
    ptr w1 = ptr w2 ->
    let a := _on_dom w1 dom Written in
    let b := _on_dom w2 dom Written in
    email_data a = email_data b /\ disk a = disk b /\ views a = views b
    /\ chat_display a = chat_display w1 /\ chat_input a = chat_input w1
    /\ dialogs a = dialogs w1
    /\ (header_check a, body_check a, links_check a)
       = (header_check w1, body_check w1, links_check w1).
Proof.
  intros w1 w2 dom Hp a b. unfold a, b, _on_dom, views.
  rewrite !display_links_items.
  repeat match goal with
         | |- context [?f (_display_links ?l ?x)] =>
             first
               [ rewrite (proj1 (display_links_frame l x))
               | rewrite (proj1 (proj2 (display_links_frame l x)))
               | rewrite (proj1 (proj2 (proj2 (display_links_frame l x))))
               | rewrite (proj1 (proj2 (proj2 (proj2 (display_links_frame l x)))))
               | rewrite (proj1 (proj2 (proj2 (proj2 (proj2 (display_links_frame l x))))))
               | rewrite (proj2 (proj2 (proj2 (proj2 (proj2 (display_links_frame l x))))))
               | rewrite (proj1 (proj2 (display_links_rest l x)))
               | rewrite (proj1 (proj2 (proj2 (display_links_rest l x))))
               | rewrite (proj1 (proj2 (proj2 (proj2 (display_links_rest l x)))))
               | rewrite (proj2 (proj2 (proj2 (proj2 (display_links_rest l x))))) ]
         end.
  cbn [email_data disk details body_browser chat_display chat_input dialogs
       header_check body_check links_check ptr
       _display_body _display_details set_body_browser set_details set_disk
       set_email_data].
  rewrite Hp. repeat split; reflexivity.
Qed.

Lemma callback_replaces_wholesale_witness :
  views (_on_dom sample_window (Some sample_dom) Written)
  = views (_on_dom (init_window sample_ptr) (Some sample_dom) Written).
Proof.
  exact (proj1 (proj2 (proj2 (callback_replaces_wholesale sample_window
           (init_window sample_ptr) (Some sample_dom) eq_refl)))).
Defined.

(** ** The chat, once more *)

(** X16 - a click that submits a prompt empties the input line, so a
    second click right after it submits nothing and leaves the window as
    it is. *)
Theorem second_click_submits_nothing :
  forall (w : window) (d : extraction),
    email_data w = Some d ->
    truthy (strip (chat_input w)) = true ->
    exists (w1 : window) (prompt : string),
      _send_to_llm w = (w1, Some prompt)
      /\ chat_input w1 = EmptyString
      /\ chat_display w1
         = (chat_display w ++ [Text ("You: " ++ strip (chat_input w)); Pending])%list
      /\ _send_to_llm w1 = (w1, None).
Proof.
  intros w d Hd Hm. rewrite (send_dispatches w d Hd Hm).
  eexists _, _. split; [reflexivity|]. split; [reflexivity|]. split.
  - cbn. unfold append. now rewrite <- app_assoc.
  - unfold _send_to_llm. cbn [email_data chat_append set_chat_input
                              set_chat_display chat_input].
    now rewrite Hd.
Qed.

Lemma second_click_submits_nothing_witness :
  exists (w1 : window) (prompt : string),
    _send_to_llm sample_window = (w1, Some prompt)
    /\ chat_input w1 = EmptyString
    /\ chat_display w1
       = (chat_display sample_window
          ++ [Text ("You: " ++ strip (chat_input sample_window)); Pending])%list
    /\ _send_to_llm w1 = (w1, None).
Proof.
  exact (second_click_submits_nothing sample_window _ eq_refl eq_refl).
Defined.

(** X17 - with a record in the window, the context is the empty string
    only when the three boxes are clear: an enabled section always
    leaves at least its label, also when its content is empty. *)
Theorem context_empty_only_without_sections :
  forall (w : window) (d : extraction),
    email_data w = Some d ->
    (_compose_context w = Some EmptyString <->
     header_check w = false /\ body_check w = false /\ links_check w = false).
Proof.
  intros w d Hd. rewrite (compose_context_spec w d Hd).
  unfold spec_compose, header_block, body_block, links_block.
  destruct (header_check w), (body_check w), (links_check w);
    (split; [intros H; try discriminate H; now repeat split
            | intros (H1 & H2 & H3); try discriminate; reflexivity]).
Qed.

Lemma context_empty_only_without_sections_witness :
  _compose_context sample_window = Some EmptyString.
Proof.
  apply (proj2 (context_empty_only_without_sections sample_window _ eq_refl)).
  repeat split.
Defined.

(** ** The session, once more *)

Lemma send_outside_chat (w : window) :
  outside_chat (fst (_send_to_llm w)) = outside_chat w
  /\ exists more, chat_display (fst (_send_to_llm w)) = (chat_display w ++ more)%list.
Proof.
  unfold _send_to_llm. destruct (email_data w) eqn:Hd.
  - destruct (negb (truthy (strip (chat_input w)))).
    + split; [reflexivity|]. exists []. now rewrite app_nil_r.
    + destruct (_compose_context w).
      * split; [reflexivity|]. cbn. unfold append.
        rewrite <- app_assoc. now eexists.
      * split; [reflexivity|]. exists []. now rewrite app_nil_r.
  - split; [reflexivity|]. cbn. unfold append. now eexists.
Qed.

Lemma step_outside_chat (s : session) (t : tick) :
  outside_chat (win (step s t)) = outside_chat (win s)
  /\ exists more,
       chat_display (win (step s t)) = (chat_display (win s) ++ more)%list.
Proof.
  assert (forall ev s0,
            outside_chat (win (handle ev s0)) = outside_chat (win s0)
            /\ exists more, chat_display (win (handle ev s0))
                            = (chat_display (win s0) ++ more)%list) as Hh.
  { intros ev s0. destruct ev; cbn [handle].
    - pose proof (send_outside_chat (win s0)) as H.
      destruct (_send_to_llm (win s0)) as [w' [p|]]; exact H.
    - split; [reflexivity|]. exists []. cbn. now rewrite app_nil_r.
    - destruct (finished s0 fut); (split; [reflexivity|]);
        exists []; cbn; now rewrite app_nil_r.
    - split; [reflexivity|]. cbn. unfold append. now eexists. }
  assert (forall s0 : session,
            outside_chat (win s0) = outside_chat (win s0)
            /\ exists more, chat_display (win s0) = (chat_display (win s0) ++ more)%list)
    as Hid by (intros; split; [reflexivity|]; exists []; now rewrite app_nil_r).
  destruct t as [|ev|fut r]; cbn [step].
  - destruct (control_thread s).
    + destruct (queue s) as [|ev rest]; [exact (Hid s)|]. exact (Hh ev _).
    + exact (Hh _ s).
  - exact (Hid s).
  - destruct (nth_error (pool s) fut) as [[p|res]|]; exact (Hid s).
Qed.

(** X18 - whatever happens in the chat, in whatever order, the pointer,
    the record, the three panels, the dialogs, the file and the three
    boxes stay as they are, and the chat log only grows at its end. *)
Theorem chat_leaves_record_and_panels :
  forall (ticks : list tick) (s : session),
    outside_chat (win (run ticks s)) = outside_chat (win s)
    /\ exists more : list chat_line,
         chat_display (win (run ticks s)) = (chat_display (win s) ++ more)%list.
Proof.
  unfold run. induction ticks as [|t ticks IH]; intros s; cbn [fold_left].
  - split; [reflexivity|]. exists []. now rewrite app_nil_r.
  - destruct (IH (step s t)) as (E & more & L).
    destruct (step_outside_chat s t) as (E1 & more1 & L1).
    split; [congruence|]. exists (more1 ++ more)%list.
    now rewrite L, L1, app_assoc.
Qed.

Lemma blocked_step (s : session) (fut : nat) (t : tick) :
  control_thread s = In_result fut -> finished s fut = None ->
  local_tick t = true ->
  win (step s t) = win s /\ control_thread (step s t) = In_result fut
  /\ pool (step s t) = pool s
  /\ exists posted, queue (step s t) = (queue s ++ posted)%list.
Proof.
  intros Hc Hf Ht. destruct t as [|ev|f r]; [| |discriminate].
  - rewrite (blocked_control_idles s fut Hc Hf).
    repeat split; try assumption. exists []. now rewrite app_nil_r.
  - cbn [step win control_thread pool queue]. repeat split; try assumption.
    now exists [ev].
Qed.

(** X19 - while the control thread sits in [fut.result()] of a future
    whose call has not returned, no turn of the control thread and no
    action of the user changes the window: the events only pile up at the
    end of the queue. *)
Theorem nothing_handled_while_waiting :
  forall (ticks : list tick) (s : session) (fut : nat),
    control_thread s = In_result fut -> finished s fut = None ->
    forallb local_tick ticks = true ->
    win (run ticks s) = win s
    /\ control_thread (run ticks s) = In_result fut
    /\ pool (run ticks s) = pool s
    /\ exists posted : list event, queue (run ticks s) = (queue s ++ posted)%list.
Proof.
  unfold run. induction ticks as [|t ticks IH]; intros s fut Hc Hf Hl;
    cbn [fold_left].
  - repeat split; try assumption. exists []. now rewrite app_nil_r.
  - cbn [forallb] in Hl. apply andb_prop in Hl as [Ht Hl].
    destruct (blocked_step s fut t Hc Hf Ht) as (Ew & Ec & Ep & posted1 & Eq).
    assert (finished (step s t) fut = None) as Hf'
      by (unfold finished in *; now rewrite Ep).
    destruct (IH (step s t) fut Ec Hf' Hl) as (Ew' & Ec' & Ep' & posted & Eq').
    repeat split; try congruence.
    exists (posted1 ++ posted)%list. now rewrite Eq', Eq, app_assoc.
Qed.

Lemma nothing_handled_while_waiting_witness :
  win (run [User_posts (Edit_input "And the address?"); User_posts Click_send;
            Control_runs; Control_runs]
           (run [Control_runs; Control_runs] sample_session))
  = win (run [Control_runs; Control_runs] sample_session).
Proof.
  exact (proj1 (nothing_handled_while_waiting
           [User_posts (Edit_input "And the address?"); User_posts Click_send;
            Control_runs; Control_runs]
           (run [Control_runs; Control_runs] sample_session) 0
           eq_refl eq_refl eq_refl)).
Defined.
















(** One question answered: the placeholder and the answer, nothing left
    on the way. *)
Example one_question_one_answer :
  let s := run [Control_runs; Control_runs; Call_returns 0 (Reply " Friday noon ");
                Control_runs; Control_runs] sample_session in
  model_lines (chat_display (win s)) = 2 /\ placeholders (chat_display (win s)) = 1
  /\ in_flight s = 0 /\ List.length (pool s) = 1
  /\ chat_display (win s)
     = [Text "You: When is the bid due?"; Pending; Text "Model: Friday noon"].
Proof. cbv zeta. repeat split; vm_compute; reflexivity. Qed.

(** ** Replies and unreadable senders *)

(** X21 - a reply is shown without its surrounding white space, and a
    reply that is empty or all white space is shown as the bare Model
    line: an empty answer is not reported as an error. *)
Theorem blank_reply_is_not_an_error :
  forall content : string,
    on_done (inl (task (Reply content))) = Text ("Model: " ++ strip content)
    /\ (all_space content = true ->
        on_done (inl (task (Reply content))) = Text "Model: ").
Proof.
  intros content. split; [reflexivity|].
  intros H. apply strip_empty_iff in H.
  unfold on_done, task, call_ollama. now rewrite H.
Qed.

Lemma blank_reply_is_not_an_error_witness :
  on_done (inl (task (Reply "   "))) = Text "Model: ".
Proof.
  exact (proj2 (blank_reply_is_not_an_error "   ") eq_refl).
Defined.

(** X22 - an item whose address cannot be read (both lookups raise or
    give nothing) is taken with the empty address and does not stop the
    search: on a configuration with a list of addresses and a domain it
    passes the rule only if the list holds an empty entry, never by the
    domain. *)
Theorem unreadable_sender_needs_empty_entry :
  forall (cfg : dict) (ss : list string) (dm : string) (itm : mail_item),
    get cfg "senders" = Some (PList (map PStr ss)) ->
    get cfg "sender_domain" = Some (PStr dm) ->
    (Sender itm = ExchangeRaises \/ Sender itm = NoExchangeUser
     \/ Sender itm = ExchangeUser None) ->
    (SenderEmailAddress itm = AddressRaises
     \/ SenderEmailAddress itm = Address None) ->
    sender_address itm = EmptyString
    /\ sender_matches (Some (sender_address itm)) cfg
       = Returns (mem EmptyString (map lower ss)).
Proof.
  intros cfg ss dm itm Hs Hd Hx Ha.
  assert (sender_address itm = EmptyString) as E.
  { unfold sender_address.
    destruct Hx as [Hx|[Hx|Hx]], Ha as [Ha|Ha]; rewrite Hx, Ha; reflexivity. }
  split; [exact E|]. rewrite E.
  rewrite (sender_matches_typed _ cfg ss dm Hs Hd). cbn [or_empty lower].
  destruct (truthy dm) eqn:T.
  - rewrite contains_in_empty by now rewrite lower_truthy.
    now rewrite andb_false_r, orb_false_r.
  - now rewrite orb_false_r.
Qed.

Lemma unreadable_sender_needs_empty_entry_witness :
  sender_matches
    (Some (sender_address
       {| Sender := ExchangeRaises; SenderEmailAddress := AddressRaises;
          EntryID := None; Subject := None; HTMLBody := None; Body := None |}))
    (load_config file_config)
  = Returns false.
Proof.
  exact (proj2 (unreadable_sender_needs_empty_entry (load_config file_config)
           ["Bids@Example.com"] "planhub.com"
           {| Sender := ExchangeRaises; SenderEmailAddress := AddressRaises;
              EntryID := None; Subject := None; HTMLBody := None; Body := None |}
           eq_refl eq_refl (or_introl eq_refl) (or_introl eq_refl))).
Defined.

(** ** Two more instances *)

Lemma page_links_are_navigable_witness :
  prefix "mailto:" "https://planhub.com/bid/1234/view" = false
  /\ prefix "tel:" "https://planhub.com/bid/1234/view" = false.
Proof.
  destruct (page_links_are_navigable
              [anchor_mail; anchor_hidden; anchor_portal] None
              (init_window sample_ptr) Written)
    as (_ & _ & _ & _ & _ & _ & _ & H).
  exact (H "https://planhub.com/bid/1234/view" eq_refl).
Defined.

Lemma links_list_shows_every_link_witness :
  let w' := _on_dom (init_window sample_ptr)
              (Some {| js_text := EmptyString;
                       js_links := [link_view; long_link] |}) Written in
  map tooltip (links_list w') = [l_href link_view; l_href long_link]
  /\ Forall2 (fun l it =>
                tooltip it = l_href l
                /\ cut it = negb (String.length (l_href l) <=? 100)
                /\ exists u : string,
                     shown it = l_text l ++ " -> " ++ u
                     /\ String.length u <= 100
                     /\ prefix u (l_href l) = true
                     /\ (cut it = false -> u = l_href l)
                     /\ (cut it = true ->
                         u = substring 0 100 (l_href l)
                         /\ String.length u = 100))
             [link_view; long_link] (links_list w').
Proof.
  exact (links_list_shows_every_link (init_window sample_ptr) EmptyString
           [link_view; long_link]).
Defined.
